(** * gollum: the Proxy consumer and the Base64Decode formatter

    A shallow embedding of [consumer/proxy.go] and [format/base64decode.go].

    - [Configure] of both plugins is a pure function from a plugin
      configuration to the configured plugin and the collected errors; a
      panic is an outcome of its own.
    - [accept] and [Consume] run concurrently; they are embedded as one step
      function each over a shared [world], scheduled by a list of labels.
    - Collaborators that live outside these two files (the string, address and
      base64 helpers of the Go libraries, the embedded plugin bases) are the
      fields of a type class, so every statement holds for any implementation
      of them. *)

From Stdlib Require Import ZArith List String Ascii Bool Lia.
From Stdlib.Strings Require Import Byte.
From stdpp Require Import base gmap strings list.
Import ListNotations.

Local Open Scope Z_scope.
Local Open Scope string_scope.

(* ===================================================================== *)
(** ** Errors and the error stack *)
(* ===================================================================== *)

(** Go [error] values, tagged by where they were created.  Two errors of
    different origin are different values even when their text agrees. *)
Inductive error : Type :=
| BaseError (msg : string)      (* returned by an embedded base's Configure *)
| LookupError (key : string)    (* returned by a PluginConfig getter *)
| Errorf (msg : string)         (* created by ErrorStack.Pushf *)
| NetError (msg : string)       (* returned by net.Listen / Listener.Accept *)
| CorruptInputError (at_ : Z).  (* returned by base64 Decode *)

(** [tgo.ErrorStack]: errors are appended in the order they are pushed; a nil
    error is not pushed; [ErrorOrNil] is nil exactly for the empty stack. *)
Module ErrorStack.

Definition t : Type := list error.

Definition NewErrorStack : t := [].

Definition Push (err : option error) (stack : t) : t :=
  match err with
  | Some e => (stack ++ [e])%list
  | None => stack
  end.

Definition Pushf (msg : string) (stack : t) : t := (stack ++ [Errorf msg])%list.

Definition ErrorOrNil (stack : t) : option t :=
  match stack with
  | [] => None
  | _ :: _ => Some stack
  end.

End ErrorStack.

(** Code that pushes onto one error stack while it computes a value. *)
Definition Collect (A : Type) : Type := ErrorStack.t -> A * ErrorStack.t.

Definition ret {A : Type} (a : A) : Collect A := fun stack => (a, stack).

Definition bind {A B : Type} (c : Collect A) (k : A -> Collect B) : Collect B :=
  fun stack => let (a, stack') := c stack in k a stack'.

Notation "x <- c ;; k" := (bind c (fun x => k))
  (at level 100, c at next level, right associativity).
Notation "c ;;; k" := (bind c (fun _ => k))
  (at level 100, right associativity).

(** A computation that only appends to the stack it is given, and whose value
    does not depend on that stack. *)
Definition appends {A : Type} (c : Collect A) : Prop :=
  forall stack, c stack = (fst (c []), (stack ++ snd (c []))%list).

(** [errors.Push(err)] *)
Definition Push (err : option error) : Collect unit :=
  fun stack => (tt, ErrorStack.Push err stack).

(** [errors.Pushf(msg)] *)
Definition Pushf (msg : string) : Collect unit :=
  fun stack => (tt, ErrorStack.Pushf msg stack).

(** [errors.Str(value, err)] and [errors.Int(value, err)]: push the error of a
    two-valued call and pass its value on. *)
Definition Str (r : string * option error) : Collect string :=
  fun stack => (fst r, ErrorStack.Push (snd r) stack).

Definition Int (r : Z * option error) : Collect Z :=
  fun stack => (fst r, ErrorStack.Push (snd r) stack).

(* ===================================================================== *)
(** ** Plugin configuration *)
(* ===================================================================== *)

Inductive ConfValue : Type :=
| VString (s : string)
| VInt (n : Z)
| VBool (b : bool).

(** The settings of one plugin, by option name. *)
Abbreviation PluginConfig := (gmap string ConfValue).

(** Modelled from the spec: [core.PluginConfig.GetString] is not under src/.
    An option that is absent takes its default (section 6).  The getter
    returns a value and an error, which [proxy.go] hands to [errors.Str]; the
    error is taken to be that of a value of another type, returned with the
    zero value. *)
Definition GetString (conf : PluginConfig) (key : string) (defaultValue : string)
  : string * option error :=
  match conf !! key with
  | None => (defaultValue, None)
  | Some (VString s) => (s, None)
  | Some _ => ("", Some (LookupError key))
  end.

(** Modelled from the spec: [core.PluginConfig.GetInt] is not under src/;
    as [GetString]. *)
Definition GetInt (conf : PluginConfig) (key : string) (defaultValue : Z)
  : Z * option error :=
  match conf !! key with
  | None => (defaultValue, None)
  | Some (VInt n) => (n, None)
  | Some _ => (0, Some (LookupError key))
  end.

(* ===================================================================== *)
(** ** consumer.Proxy: Configure *)
(* ===================================================================== *)

(** What [proxy.go] imports: [strings.ToLower], [tnet.ParseAddress] (address
    first, protocol second), [tstrings.Unescape], the flag constants of
    [tio.BufferedReaderFlags] and the embedded [core.ConsumerBase] with its
    own [Configure]. *)
Class ProxyImports : Type := {
  ToLower : string -> string;
  ParseAddress : string -> string * string;
  Unescape : string -> string;
  BufferedReaderFlagEverything : Z;
  BufferedReaderFlagBigEndian : Z;
  BufferedReaderFlagMLE : Z;
  BufferedReaderFlagMLE8 : Z;
  BufferedReaderFlagMLE16 : Z;
  BufferedReaderFlagMLE32 : Z;
  BufferedReaderFlagMLE64 : Z;
  BufferedReaderFlagMLEFixed : Z;
  ConsumerBase : Type;
  ConsumerBase_Configure : ConsumerBase -> PluginConfig -> ConsumerBase * option string;
}.

(** The handle stored in [cons.listen]: nil until [Consume] binds it. *)
Inductive listen_handle : Type :=
| ListenNil
| ListenOpen
| ListenClosed.

Module Proxy.
Section Configure.

Context `{ProxyImports}.

Record Proxy : Type := {
  base : ConsumerBase;
  listen : listen_handle;
  protocol : string;
  address : string;
  flags : Z;
  delimiter : string;
  offset : Z;
}.

Definition msgUDP : string := "Proxy does not support UDP".
Definition msgSize : string := "Size only supports the value 1,2,4 and 8".
Definition msgUnknown (partitioner : string) : string :=
  "Unknown partitioner: " ++ partitioner.

(** Lines 119-130: the inner switch over [Size] shared by the three binary
    kinds. *)
Definition switchSize (conf : PluginConfig) (flags : Z) : Collect Z :=
  size <- Int (GetInt conf "Size" 4) ;;
  if (size =? 1)%Z then ret (Z.lor flags BufferedReaderFlagMLE8)
  else if (size =? 2)%Z then ret (Z.lor flags BufferedReaderFlagMLE16)
  else if (size =? 4)%Z then ret (Z.lor flags BufferedReaderFlagMLE32)
  else if (size =? 8)%Z then ret (Z.lor flags BufferedReaderFlagMLE64)
  else Pushf msgSize ;;; ret flags.

(** Lines 113-144: the switch over the lowercased partitioner name; it
    yields the new [flags] and [offset].  ["binary_be"] sets the big-endian
    flag and falls through into the binary case. *)
Definition switchPartitioner (conf : PluginConfig) (partitioner : string)
    (flags offset : Z) : Collect (Z * Z) :=
  if String.eqb partitioner "binary_be" then
    flags' <- switchSize conf (Z.lor flags BufferedReaderFlagBigEndian) ;;
    ret (flags', offset)
  else if String.eqb partitioner "binary" || String.eqb partitioner "binary_le" then
    flags' <- switchSize conf flags ;;
    ret (flags', offset)
  else if String.eqb partitioner "fixed" then
    size <- Int (GetInt conf "Size" 1) ;;
    ret (Z.lor flags BufferedReaderFlagMLEFixed, size)
  else if String.eqb partitioner "ascii" then
    ret (Z.lor flags BufferedReaderFlagMLE, offset)
  else if String.eqb partitioner "delimiter" then
    ret (flags, offset)
  else
    Pushf (msgUnknown partitioner) ;;; ret (flags, offset).

(** Lines 100-144, on the error stack created in line 100. *)
Definition configure (cons : Proxy) (conf : PluginConfig) : Collect Proxy :=
  let (base', baseErr) := ConsumerBase_Configure (base cons) conf in
  Push (option_map BaseError baseErr) ;;;
  addr <- Str (GetString conf "Address" ":5880") ;;
  let (address', protocol') := ParseAddress addr in
  (if String.eqb protocol' "udp" then Pushf msgUDP else ret tt) ;;;
  delim <- Str (GetString conf "Delimiter" (String (ascii_of_nat 10) "")) ;;
  offset0 <- Int (GetInt conf "Offset" 0) ;;
  name <- Str (GetString conf "Partitioner" "delimiter") ;;
  fo <- switchPartitioner conf (ToLower name) BufferedReaderFlagEverything offset0 ;;
  ret {| base := base';
         listen := listen cons;
         protocol := protocol';
         address := address';
         flags := fst fo;
         delimiter := Unescape delim;
         offset := snd fo |}.

(** The stack [Configure] has built when it reaches line 146. *)
Definition ConfigureErrors (cons : Proxy) (conf : PluginConfig) : ErrorStack.t :=
  snd (configure cons conf ErrorStack.NewErrorStack).

(** [func (cons *Proxy) Configure(conf core.PluginConfig) error]: the
    configured consumer and [errors.ErrorOrNil()]. *)
Definition Configure (cons : Proxy) (conf : PluginConfig) : Proxy * option ErrorStack.t :=
  let (cons', errors) := configure cons conf ErrorStack.NewErrorStack in
  (cons', ErrorStack.ErrorOrNil errors).

(** The values [Configure] branches on: the protocol compared in line 104 and
    the name switched on in line 113. *)
Definition protocolOf (conf : PluginConfig) : string :=
  snd (ParseAddress (fst (GetString conf "Address" ":5880"))).

Definition partitionerOf (conf : PluginConfig) : string :=
  ToLower (fst (GetString conf "Partitioner" "delimiter")).

(** The names the switch of line 113 knows, those of them that read a binary
    length field, and the sizes the switch of line 119 knows. *)
Definition partitionerNames : list string :=
  ["delimiter"; "ascii"; "binary"; "binary_le"; "binary_be"; "fixed"].

Definition binaryNames : list string := ["binary"; "binary_le"; "binary_be"].

Definition binarySizes : list Z := [1; 2; 4; 8]%Z.

(** Every option [Configure] reads has a value of the type it is read at,
    or none. *)
Definition optionsWellTyped (conf : PluginConfig) : Prop :=
  snd (GetString conf "Address" ":5880") = None
  /\ snd (GetString conf "Delimiter" (String (ascii_of_nat 10) "")) = None
  /\ snd (GetInt conf "Offset" 0) = None
  /\ snd (GetString conf "Partitioner" "delimiter") = None
  /\ snd (GetInt conf "Size" 4) = None.

(** [flags & flag == flag] *)
Definition hasFlag (flags flag : Z) : bool := (Z.land flags flag =? flag)%Z.

End Configure.
End Proxy.

(** Modelled from the spec: the Fixed frame partitioner of section 4.1 (the
    stream reader that is handed [flags] and [offset] is not under src/).
    "Every frame is exactly [size] bytes", [size] a positive integer; a buffer
    shorter than that is the "not yet available" case. *)
Inductive ExtractResult : Type :=
| Found (frame rest : list byte)
| NeedMoreData.

Definition tryExtractFixed (size : Z) (buffer : list byte) : ExtractResult :=
  if (0 <? size)%Z && (size <=? Z.of_nat (List.length buffer))%Z
  then Found (firstn (Z.to_nat size) buffer) (skipn (Z.to_nat size) buffer)
  else NeedMoreData.

(* ===================================================================== *)
(** ** Logging and messages *)
(* ===================================================================== *)

(** One call of [Log.Error.Print]: the text printed before the error, and
    the error. *)
Inductive log_entry : Type :=
| LogError (text : string) (err : error).

(** [core.Message], as far as the formatter reads it. *)
Record Message : Type := {
  Data : list byte;
  StreamID : Z;
}.

(* ===================================================================== *)
(** ** format.Base64Decode *)
(* ===================================================================== *)

(** What [base64decode.go] imports: [encoding/base64] and the embedded
    [core.FormatterBase].  [NewEncoding] wants an alphabet of 64 bytes and
    panics on any other ([None]); it may refuse an alphabet of 64 bytes too,
    one with a line break in it.  [Decode enc dst src] gives the contents of
    [dst] after the call, the number [n] of bytes written and the error. *)
Class Base64Imports : Type := {
  Encoding : Type;
  StdEncoding : Encoding;
  NewEncoding : string -> option Encoding;
  NewEncoding_alphabet :
    forall encoder enc, NewEncoding encoder = Some enc -> String.length encoder = 64%nat;
  DecodedLen : Encoding -> Z -> Z;
  Decode : Encoding -> list byte -> list byte -> list byte * Z * option error;
  FormatterBase : Type;
  FormatterBase_Configure : FormatterBase -> PluginConfig -> FormatterBase * option string;
}.

(** [make([]byte, n)]: [n] zero bytes; a negative length panics. *)
Definition make (n : Z) : option (list byte) :=
  if (n <? 0)%Z then None else Some (repeat x00 (Z.to_nat n)).

(** [s[:hi]] on a slice whose capacity is its length; out of range panics. *)
Definition sliceTo (s : list byte) (hi : Z) : option (list byte) :=
  if (0 <=? hi)%Z && (hi <=? Z.of_nat (List.length s))%Z
  then Some (firstn (Z.to_nat hi) s)
  else None.

Module Base64Decode.
Section Formatter.

Context `{Base64Imports}.

Record Base64Decode : Type := {
  base : FormatterBase;
  dictionary : Encoding;
}.

Definition msgDictionary : string := "Base64 dictionary must contain 64 characters.".

(** Lines 49-60, on the error stack created in line 49: the formatter after
    line 60, or [None] when [NewEncoding] panics in line 59, and the stack as
    it stands then.  [len(dict)] is the length of the string in bytes. *)
Definition configure (format : Base64Decode) (conf : PluginConfig)
  : Collect (option Base64Decode) :=
  let (base', baseErr) := FormatterBase_Configure (base format) conf in
  Push (option_map BaseError baseErr) ;;;
  dict <- Str (GetString conf "Dictionary" "") ;;
  if String.eqb dict "" then
    ret (Some {| base := base'; dictionary := StdEncoding |})
  else
    (if negb (Z.of_nat (String.length dict) =? 64)%Z
     then Pushf msgDictionary else ret tt) ;;;
    ret (match NewEncoding dict with
         | Some encoding => Some {| base := base'; dictionary := encoding |}
         | None => None
         end).

(** The error stack when [Configure] ends, by its return or by the panic. *)
Definition ConfigureErrors (format : Base64Decode) (conf : PluginConfig)
  : ErrorStack.t :=
  snd (configure format conf ErrorStack.NewErrorStack).

(** [func (format *Base64Decode) Configure(conf core.PluginConfig) error]:
    the formatter after the call and the error returned; [None] is the panic
    of line 59, after which nothing is returned. *)
Definition Configure (format : Base64Decode) (conf : PluginConfig)
  : option (Base64Decode * option ErrorStack.t) :=
  let (result, errors) := configure format conf ErrorStack.NewErrorStack in
  match result with
  | Some format' => Some (format', ErrorStack.ErrorOrNil errors)
  | None => None
  end.

(** [format.dictionary] after a call of [Configure] that has returned. *)
Definition chosen (r : option (Base64Decode * option ErrorStack.t)) : option Encoding :=
  option_map (fun r => dictionary (fst r)) r.

(** [func (format *Base64Decode) Format(msg core.Message) ([]byte, core.MessageStreamID)]
    with the error log it prints to: [None] is a panic, otherwise the two
    results and the log after the call. *)
Definition Format (format : Base64Decode) (msg : Message) (log : list log_entry)
  : option (list byte * Z * list log_entry) :=
  match make (DecodedLen (dictionary format) (Z.of_nat (List.length (Data msg)))) with
  | None => None
  | Some decoded =>
      let '(decoded', size, err) := Decode (dictionary format) decoded (Data msg) in
      let log' := match err with
                  | Some e => (log ++ [LogError "" e])%list
                  | None => log
                  end in
      match sliceTo decoded' size with
      | None => None
      | Some payload => Some (payload, StreamID msg, log')
      end
  end.

End Formatter.
End Base64Decode.

(* ===================================================================== *)
(** ** consumer.Proxy: accept and Consume *)
(* ===================================================================== *)

(** [Consume] and the goroutine it starts for [accept] run concurrently and
    share the consumer, the fuse and the listener.  Each is embedded as a
    program counter in the shared [world] and a function that performs its
    next statement; [None] means that the statement blocks (or that the code
    has ended).  What surrounds them (peers, the authority that toggles the
    fuse, the process that requests shutdown) takes steps of its own. *)
Module Lifecycle.

(** An accepted connection. *)
Definition conn : Type := nat.

(** Where the goroutine of lines 177-180 stands. *)
Inductive accept_pc : Type :=
| AccNotStarted                  (* the goroutine has not been started *)
| AccAddMainWorker               (* line 178 *)
| AccIsActive                    (* line 153, the loop condition *)
| AccWaitOnFuse                  (* line 154 *)
| AccCallAccept                  (* line 156, about to call listener.Accept *)
| AccInAccept                    (* line 156, inside listener.Accept *)
| AccFailed (err : error)        (* line 157, err != nil *)
| AccAccepted (client : conn)    (* line 164 *)
| AccWorkerDone                  (* line 150, the deferred WorkerDone *)
| AccFinished.                   (* the goroutine has ended *)

(** Where [Consume] stands. *)
Inductive consume_pc : Type :=
| ConListen                      (* line 172 *)
| ConGo                          (* line 177 *)
| ConControlLoop                 (* line 183 *)
| ConClose                       (* line 182, the deferred Close *)
| ConReturned.

Record world : Type := {
  active : bool;                 (* what cons.IsActive() reads *)
  burned : bool;                 (* the state of the fuse *)
  stopRequested : bool;          (* the shutdown signal has been sent *)
  listenResult : option error;   (* what net.Listen will answer *)
  listen : listen_handle;        (* cons.listen *)
  backlog : list conn;           (* peers that connected, not yet accepted *)
  handlers : list conn;          (* connections handed to listenToProxyClient *)
  workers : Z;                   (* the counter of the workers wait group *)
  log : list log_entry;          (* cons.Log.Error *)
  acceptAt : accept_pc;
  consumeAt : consume_pc;
}.

Definition setActive (b : bool) (w : world) : world :=
  {| active := b; burned := burned w; stopRequested := stopRequested w;
     listenResult := listenResult w; listen := listen w; backlog := backlog w;
     handlers := handlers w; workers := workers w; log := log w;
     acceptAt := acceptAt w; consumeAt := consumeAt w |}.

Definition setBurned (b : bool) (w : world) : world :=
  {| active := active w; burned := b; stopRequested := stopRequested w;
     listenResult := listenResult w; listen := listen w; backlog := backlog w;
     handlers := handlers w; workers := workers w; log := log w;
     acceptAt := acceptAt w; consumeAt := consumeAt w |}.

Definition setStopRequested (b : bool) (w : world) : world :=
  {| active := active w; burned := burned w; stopRequested := b;
     listenResult := listenResult w; listen := listen w; backlog := backlog w;
     handlers := handlers w; workers := workers w; log := log w;
     acceptAt := acceptAt w; consumeAt := consumeAt w |}.

Definition setListen (h : listen_handle) (w : world) : world :=
  {| active := active w; burned := burned w; stopRequested := stopRequested w;
     listenResult := listenResult w; listen := h; backlog := backlog w;
     handlers := handlers w; workers := workers w; log := log w;
     acceptAt := acceptAt w; consumeAt := consumeAt w |}.

Definition setBacklog (q : list conn) (w : world) : world :=
  {| active := active w; burned := burned w; stopRequested := stopRequested w;
     listenResult := listenResult w; listen := listen w; backlog := q;
     handlers := handlers w; workers := workers w; log := log w;
     acceptAt := acceptAt w; consumeAt := consumeAt w |}.

Definition setHandlers (hs : list conn) (w : world) : world :=
  {| active := active w; burned := burned w; stopRequested := stopRequested w;
     listenResult := listenResult w; listen := listen w; backlog := backlog w;
     handlers := hs; workers := workers w; log := log w;
     acceptAt := acceptAt w; consumeAt := consumeAt w |}.

Definition setWorkers (n : Z) (w : world) : world :=
  {| active := active w; burned := burned w; stopRequested := stopRequested w;
     listenResult := listenResult w; listen := listen w; backlog := backlog w;
     handlers := handlers w; workers := n; log := log w;
     acceptAt := acceptAt w; consumeAt := consumeAt w |}.

Definition logError (text : string) (err : error) (w : world) : world :=
  {| active := active w; burned := burned w; stopRequested := stopRequested w;
     listenResult := listenResult w; listen := listen w; backlog := backlog w;
     handlers := handlers w; workers := workers w;
     log := (log w ++ [LogError text err])%list;
     acceptAt := acceptAt w; consumeAt := consumeAt w |}.

Definition acceptGoto (pc : accept_pc) (w : world) : world :=
  {| active := active w; burned := burned w; stopRequested := stopRequested w;
     listenResult := listenResult w; listen := listen w; backlog := backlog w;
     handlers := handlers w; workers := workers w; log := log w;
     acceptAt := pc; consumeAt := consumeAt w |}.

Definition consumeGoto (pc : consume_pc) (w : world) : world :=
  {| active := active w; burned := burned w; stopRequested := stopRequested w;
     listenResult := listenResult w; listen := listen w; backlog := backlog w;
     handlers := handlers w; workers := workers w; log := log w;
     acceptAt := acceptAt w; consumeAt := pc |}.

(** What [Accept] returns on a listener that has been closed. *)
Definition errClosed : error := NetError "use of closed network connection".

(** Modelled from the spec: [ConsumerBase.IsActive] is not under src/.
    Section 5: "the active-flag's atomic read". *)
Definition IsActive (w : world) : bool := active w.

(** Modelled from the spec: [ConsumerBase.AddMainWorker] and
    [ConsumerBase.WorkerDone] are not under src/, and the spec does not name
    them.  By their use in lines 150 and 178 they enter the calling goroutine
    into the wait group that [Consume] is handed, and take it out again. *)
Definition AddMainWorker (w : world) : world := setWorkers (workers w + 1) w.

Definition WorkerDone (w : world) : world := setWorkers (workers w - 1) w.

(** Modelled from the spec: [ConsumerBase.WaitOnFuse] is not under src/.
    Section 4.3: "a blocking wait that returns as soon as the state
    transitions to clear"; it returns at once when the fuse is clear. *)
Definition WaitOnFuse (w : world) : option world :=
  if burned w then None else Some w.

(** Modelled from the spec: [ConsumerBase.ControlLoop] is not under src/.
    Section 4.5: "block the owning task on a shutdown signal"; section 5:
    "process shutdown sets the active flag false". *)
Definition ControlLoop (w : world) : option world :=
  if stopRequested w then Some (setActive false w) else None.

(** [listener.Accept()] from the inside: it blocks while the listener is
    open and nobody has connected, hands out the oldest pending connection,
    and fails once the listener is closed. *)
Definition Accept (w : world) : option (world * (conn + error)) :=
  match listen w with
  | ListenOpen =>
      match backlog w with
      | client :: rest => Some (setBacklog rest w, inl client)
      | [] => None
      end
  | _ => Some (w, inr errClosed)
  end.

(** The next statement of [func (cons *Proxy) accept()], lines 149-166,
    inside the goroutine of lines 177-180. *)
Definition accept (w : world) : option world :=
  match acceptAt w with
  | AccNotStarted => None
  | AccAddMainWorker => Some (acceptGoto AccIsActive (AddMainWorker w))
  | AccIsActive =>
      if IsActive w then Some (acceptGoto AccWaitOnFuse w)
      else Some (acceptGoto AccWorkerDone w)
  | AccWaitOnFuse =>
      match WaitOnFuse w with
      | Some w' => Some (acceptGoto AccCallAccept w')
      | None => None
      end
  | AccCallAccept => Some (acceptGoto AccInAccept w)
  | AccInAccept =>
      match Accept w with
      | Some (w', inl client) => Some (acceptGoto (AccAccepted client) w')
      | Some (w', inr err) => Some (acceptGoto (AccFailed err) w')
      | None => None
      end
  | AccFailed err =>
      if IsActive w
      then Some (acceptGoto AccWorkerDone (logError "Proxy listen failed: " err w))
      else Some (acceptGoto AccWorkerDone w)
  | AccAccepted client =>
      Some (acceptGoto AccIsActive (setHandlers (handlers w ++ [client])%list w))
  | AccWorkerDone => Some (acceptGoto AccFinished (WorkerDone w))
  | AccFinished => None
  end.

(** The next statement of [func (cons *Proxy) Consume(workers)], lines
    169-184. *)
Definition Consume (w : world) : option world :=
  match consumeAt w with
  | ConListen =>
      match listenResult w with
      | Some err =>
          Some (consumeGoto ConReturned (logError "Proxy connection error: " err w))
      | None => Some (consumeGoto ConGo (setListen ListenOpen w))
      end
  | ConGo => Some (consumeGoto ConControlLoop (acceptGoto AccAddMainWorker w))
  | ConControlLoop =>
      match ControlLoop w with
      | Some w' => Some (consumeGoto ConClose w')
      | None => None
      end
  | ConClose => Some (consumeGoto ConReturned (setListen ListenClosed w))
  | ConReturned => None
  end.

(** Who moves next. *)
Inductive label : Type :=
| RunConsume                     (* Consume performs its next statement *)
| RunAccept                      (* the accept goroutine performs its next statement *)
| AcceptFails (err : error)      (* the pending Accept returns an error of its own *)
| Connect (client : conn)        (* a peer connects to the open listener *)
| Burn                           (* the fuse is burned *)
| Clear                          (* the fuse is cleared *)
| Stop.                          (* shutdown is requested *)

Definition step (l : label) (w : world) : option world :=
  match l with
  | RunConsume => Consume w
  | RunAccept => accept w
  | AcceptFails err =>
      match acceptAt w with
      | AccInAccept => Some (acceptGoto (AccFailed err) w)
      | _ => None
      end
  | Connect client =>
      match listen w with
      | ListenOpen => Some (setBacklog (backlog w ++ [client])%list w)
      | _ => None
      end
  | Burn => Some (setBurned true w)
  | Clear => Some (setBurned false w)
  | Stop => Some (setStopRequested true w)
  end.

(** A schedule, performed from left to right; [None] when one of its steps
    cannot be taken. *)
Fixpoint run (ls : list label) (w : world) : option world :=
  match ls with
  | [] => Some w
  | l :: ls' =>
      match step l w with
      | Some w' => run ls' w'
      | None => None
      end
  end.

(** The consumer when [Consume] is called: configured and active, nothing
    bound, no goroutine. *)
Definition start (listenResult0 : option error) (burned0 : bool) : world :=
  {| active := true; burned := burned0; stopRequested := false;
     listenResult := listenResult0; listen := ListenNil; backlog := [];
     handlers := []; workers := 0; log := [];
     acceptAt := AccNotStarted; consumeAt := ConListen |}.

(** The accept goroutine is registered with the workers wait group: it has
    called [AddMainWorker] and not yet [WorkerDone]. *)
Definition registered (pc : accept_pc) : bool :=
  match pc with
  | AccNotStarted | AccAddMainWorker | AccFinished => false
  | _ => true
  end.

(** How the two program counters, the listener and the wait group hang
    together in every world that a run reaches. *)
Definition consistent (w : world) : Prop :=
  workers w = (if registered (acceptAt w) then 1 else 0)%Z
  /\ match consumeAt w with
     | ConListen => listen w = ListenNil /\ acceptAt w = AccNotStarted
     | ConGo =>
         listen w = ListenOpen /\ acceptAt w = AccNotStarted /\ listenResult w = None
     | ConControlLoop | ConClose =>
         listen w = ListenOpen /\ acceptAt w <> AccNotStarted /\ listenResult w = None
     | ConReturned =>
         (listen w = ListenClosed /\ acceptAt w <> AccNotStarted /\ listenResult w = None)
         \/ (listen w = ListenNil /\ acceptAt w = AccNotStarted /\ listenResult w <> None)
     end.

(** The labels on which the accept goroutine itself moves. *)
Definition movesAccept (l : label) : bool :=
  match l with
  | RunAccept | AcceptFails _ => true
  | _ => false
  end.

End Lifecycle.

(* ===================================================================== *)
(** ** Reference implementations of the imports *)
(* ===================================================================== *)

(** The theorems below hold for every implementation of the imported
    functions.  To run the embedded code on concrete input, this section
    implements them for ASCII text and for the standard base64 alphabet. *)
Module Reference.

Definition lowerASCII (c : ascii) : ascii :=
  let n := N_of_ascii c in
  if (65 <=? n)%N && (n <=? 90)%N then ascii_of_N (n + 32) else c.

(** [strings.ToLower] on ASCII text. *)
Fixpoint toLower (s : string) : string :=
  match s with
  | EmptyString => EmptyString
  | String c rest => String (lowerASCII c) (toLower rest)
  end.

(** [tnet.ParseAddress]: the text before ["://"] is the protocol, in lower
    case; without it the protocol is ["tcp"]. *)
Definition parseAddress (addressString : string) : string * string :=
  match String.index 0 "://" addressString with
  | None => (addressString, "tcp")
  | Some i =>
      (String.substring (i + 3) (String.length addressString - (i + 3)) addressString,
       toLower (String.substring 0 i addressString))
  end.

(** [tstrings.Unescape]: the escape sequences for newline, carriage return
    and tab become the characters they name. *)
Fixpoint unescape (s : string) : string :=
  match s with
  | EmptyString => EmptyString
  | String c rest =>
      match rest with
      | String d rest' =>
          if Ascii.eqb c "\"%char then
            if Ascii.eqb d "n"%char then String (ascii_of_nat 10) (unescape rest')
            else if Ascii.eqb d "r"%char then String (ascii_of_nat 13) (unescape rest')
            else if Ascii.eqb d "t"%char then String (ascii_of_nat 9) (unescape rest')
            else String c (unescape rest)
          else String c (unescape rest)
      | EmptyString => String c EmptyString
      end
  end.

(** The flags are an enumerated length encoding in the low three bits, the
    big-endian bit 8 and the keep-everything bit 16. *)
#[export] Instance proxyImports : ProxyImports := {|
  ToLower := toLower;
  ParseAddress := parseAddress;
  Unescape := unescape;
  BufferedReaderFlagEverything := 16;
  BufferedReaderFlagBigEndian := 8;
  BufferedReaderFlagMLE := 1;
  BufferedReaderFlagMLE8 := 2;
  BufferedReaderFlagMLE16 := 3;
  BufferedReaderFlagMLE32 := 4;
  BufferedReaderFlagMLE64 := 5;
  BufferedReaderFlagMLEFixed := 6;
  ConsumerBase := unit;
  ConsumerBase_Configure := fun b _ => (b, None);
|}.

(** A consumer as allocated by the plugin registry: every field zero. *)
Definition newProxy : Proxy.Proxy :=
  {| Proxy.base := tt; Proxy.listen := ListenNil; Proxy.protocol := "";
     Proxy.address := ""; Proxy.flags := 0; Proxy.delimiter := "";
     Proxy.offset := 0 |}.

(** The alphabet of RFC 4648. *)
Definition stdAlphabet : string :=
  "ABCDEFGHIJKLMNOPQRSTUVWXYZabcdefghijklmnopqrstuvwxyz0123456789+/".

(** The position of [c] in the alphabet, counted from [i]. *)
Fixpoint indexFrom (alphabet : string) (c : ascii) (i : Z) : option Z :=
  match alphabet with
  | EmptyString => None
  | String a rest => if Ascii.eqb a c then Some i else indexFrom rest c (i + 1)
  end.

Definition sextet (alphabet : string) (b : byte) : option Z :=
  indexFrom alphabet (ascii_of_byte b) 0.

Definition isPad (b : byte) : bool := Ascii.eqb (ascii_of_byte b) "="%char.

Definition byteOfZ (z : Z) : byte :=
  match Byte.of_N (Z.to_N (z mod 256)) with
  | Some b => b
  | None => x00
  end.

(** Four sextets are three bytes. *)
Definition byte0 (s0 s1 : Z) : byte := byteOfZ (Z.lor (Z.shiftl s0 2) (Z.shiftr s1 4)).
Definition byte1 (s1 s2 : Z) : byte := byteOfZ (Z.lor (Z.shiftl s1 4) (Z.shiftr s2 2)).
Definition byte2 (s2 s3 : Z) : byte := byteOfZ (Z.lor (Z.shiftl s2 6) s3).

(** Decoding with padding, four characters at a time, [at_] counting the
    characters consumed so far.  A quantum with a character that is not in
    the alphabet contributes no byte and ends the decoding with an error. *)
Fixpoint decodeQuanta (alphabet : string) (src : list byte) (at_ : Z)
  : list byte * option error :=
  match src with
  | [] => ([], None)
  | c0 :: c1 :: c2 :: c3 :: rest =>
      match sextet alphabet c0, sextet alphabet c1 with
      | Some s0, Some s1 =>
          match sextet alphabet c2, sextet alphabet c3 with
          | Some s2, Some s3 =>
              let (out, err) := decodeQuanta alphabet rest (at_ + 4) in
              (byte0 s0 s1 :: byte1 s1 s2 :: byte2 s2 s3 :: out, err)
          | Some s2, None =>
              match rest with
              | [] => if isPad c3 then ([byte0 s0 s1; byte1 s1 s2], None)
                      else ([], Some (CorruptInputError (at_ + 3)))
              | _ :: _ => ([], Some (CorruptInputError (at_ + 3)))
              end
          | None, _ =>
              match rest with
              | [] => if isPad c2 && isPad c3 then ([byte0 s0 s1], None)
                      else ([], Some (CorruptInputError (at_ + 2)))
              | _ :: _ => ([], Some (CorruptInputError (at_ + 2)))
              end
          end
      | Some _, None => ([], Some (CorruptInputError (at_ + 1)))
      | None, _ => ([], Some (CorruptInputError at_))
      end
  | _ => ([], Some (CorruptInputError (at_ + Z.of_nat (List.length src))))
  end.

(** [Decode]: the decoded bytes overwrite the front of [dst]. *)
Definition decode (alphabet : string) (dst src : list byte)
  : list byte * Z * option error :=
  let (out, err) := decodeQuanta alphabet src 0 in
  ((out ++ skipn (List.length out) dst)%list, Z.of_nat (List.length out), err).

(** [NewEncoding]: an encoding is its alphabet; an alphabet that is not 64
    bytes long panics. *)
Definition newEncoding (encoder : string) : option string :=
  if (String.length encoder =? 64)%nat then Some encoder else None.

Lemma newEncoding_alphabet encoder enc :
  newEncoding encoder = Some enc -> String.length encoder = 64%nat.
Proof.
  unfold newEncoding. destruct (Nat.eqb_spec (String.length encoder) 64); [done|discriminate].
Qed.

#[export] Instance base64Imports : Base64Imports := {|
  Encoding := string;
  StdEncoding := stdAlphabet;
  NewEncoding := newEncoding;
  NewEncoding_alphabet := newEncoding_alphabet;
  DecodedLen := fun _ n => (n / 4 * 3)%Z;
  Decode := decode;
  FormatterBase := unit;
  FormatterBase_Configure := fun b _ => (b, None);
|}.

Definition newBase64Decode : Base64Decode.Base64Decode :=
  {| Base64Decode.base := tt; Base64Decode.dictionary := "" |}.

(** The formatter with the standard encoding. *)
Definition stdBase64Decode : Base64Decode.Base64Decode :=
  {| Base64Decode.base := tt; Base64Decode.dictionary := stdAlphabet |}.

(** The bytes of an ASCII text. *)
Definition bytes (s : string) : list byte := list_byte_of_string s.

(** Sample configurations. *)
Definition confBinaryBE : PluginConfig :=
  <["Partitioner" := VString "Binary_BE"]> (<["Size" := VInt 2]> ∅).

Definition confFixed : PluginConfig :=
  <["Partitioner" := VString "FIXED"]> (<["Size" := VInt 3]> (<["Offset" := VInt 7]> ∅)).

Definition confUDPBadSize : PluginConfig :=
  <["Address" := VString "udp://localhost:5880"]>
    (<["Partitioner" := VString "binary"]> (<["Size" := VInt 3]> ∅)).

Definition confUnknown : PluginConfig :=
  <["Partitioner" := VString "Protobuf"]> ∅.

Definition confShortDictionary : PluginConfig :=
  <["Dictionary" := VString "abc"]> ∅.

(** Sample schedules: two rounds of the accept loop with the fuse burned and
    cleared in between; a shutdown while [Accept] is pending; an [Accept]
    that fails while the consumer is active. *)
Definition twoRounds : list Lifecycle.label :=
  [Lifecycle.RunConsume; Lifecycle.RunConsume;
   Lifecycle.RunAccept; Lifecycle.RunAccept; Lifecycle.RunAccept; Lifecycle.RunAccept;
   Lifecycle.Connect 1%nat; Lifecycle.RunAccept; Lifecycle.RunAccept;
   Lifecycle.RunAccept; Lifecycle.Burn; Lifecycle.Clear; Lifecycle.RunAccept].

Definition shutdown : list Lifecycle.label :=
  [Lifecycle.RunConsume; Lifecycle.RunConsume;
   Lifecycle.RunAccept; Lifecycle.RunAccept; Lifecycle.RunAccept; Lifecycle.RunAccept;
   Lifecycle.Stop; Lifecycle.RunConsume; Lifecycle.RunConsume].

Definition acceptFailure : list Lifecycle.label :=
  [Lifecycle.RunConsume; Lifecycle.RunConsume;
   Lifecycle.RunAccept; Lifecycle.RunAccept; Lifecycle.RunAccept; Lifecycle.RunAccept;
   Lifecycle.AcceptFails (NetError "too many open files")].

End Reference.

(** The peers that connect in a schedule, in the order in which they do, and
    the connection that the accept goroutine holds between [Accept] and the
    start of its handler. *)
Definition connected (ls : list Lifecycle.label) : list Lifecycle.conn :=
  flat_map (fun l => match l with
                     | Lifecycle.Connect client => [client]
                     | _ => []
                     end) ls.

Definition inHand (pc : Lifecycle.accept_pc) : list Lifecycle.conn :=
  match pc with
  | Lifecycle.AccAccepted client => [client]
  | _ => []
  end.

(** The statements the accept goroutine still has to perform from a program
    point when the consumer is inactive, the fuse is clear and the listener is
    closed. *)
Definition stepsToEnd (pc : Lifecycle.accept_pc) : nat :=
  match pc with
  | Lifecycle.AccNotStarted | Lifecycle.AccFinished => 0
  | Lifecycle.AccWorkerDone => 1
  | Lifecycle.AccFailed _ | Lifecycle.AccIsActive => 2
  | Lifecycle.AccAddMainWorker | Lifecycle.AccInAccept | Lifecycle.AccAccepted _ => 3
  | Lifecycle.AccCallAccept => 4
  | Lifecycle.AccWaitOnFuse => 5
  end.

(* ===================================================================== *)
(** ** format.SplitToJSON *)
(* ===================================================================== *)

(** A plugin as [core.NewPluginWithType] returns it: a formatter, given by
    its [Format] method, or a plugin of another kind. *)
Inductive Plugin : Type :=
| PluginFormatter (format : Message -> list byte * Z)
| PluginOther.

(** What [splittojson.go] imports: [bytes.Split], [shared.MinI],
    [shared.EscapeJSON], the getters of [core.PluginConfig] in the form this
    file calls them (they return the value only) and
    [core.NewPluginWithType], which returns the plugin or an error. *)
Class SplitToJSONImports : Type := {
  Split : list byte -> list byte -> list (list byte);
  MinI : Z -> Z -> Z;
  EscapeJSON : string -> string;
  GetStringOr : PluginConfig -> string -> string -> string;
  GetStringArray : PluginConfig -> string -> list string -> list string;
  NewPluginWithType : string -> PluginConfig -> Plugin + error;
}.

(** [s[i]]: out of range panics. *)
Definition index {A : Type} (s : list A) (i : Z) : option A :=
  if (i <? 0)%Z then None else s !! Z.to_nat i.

Module SplitToJSON.
Section Formatter.

Context `{SplitToJSONImports}.

Record SplitToJSON : Type := {
  base : Message -> list byte * Z;
  token : list byte;
  keys : list string;
}.

(** [func (format *SplitToJSON) Configure(conf core.PluginConfig) error]: the
    formatter after the call and the error returned; [None] is the panic of
    the type assertion in line 64. *)
Definition Configure (format : SplitToJSON) (conf : PluginConfig)
  : option (SplitToJSON * option error) :=
  match NewPluginWithType
          (GetStringOr conf "SplitToJSONDataFormatter" "format.Forward") conf with
  | inr err => Some (format, Some err)
  | inl PluginOther => None
  | inl (PluginFormatter plugin) =>
      Some ({| base := plugin;
               token := list_byte_of_string (GetStringOr conf "SplitToJSONToken" "|");
               keys := GetStringArray conf "SplitToJSONKeys" [] |},
            None)
  end.

(** The double quote of the format strings. *)
Definition quote : string := String (ascii_of_nat 34) EmptyString.

(** The pair as lines 88, 90 and 92 print it, after the brace or comma. *)
Definition pair (key value : string) : string :=
  quote ++ key ++ quote ++ ":" ++ quote ++ value ++ quote.

(** One round of the loop of lines 83-94. *)
Definition round (format : SplitToJSON) (components : list (list byte))
    (maxIdx : Z) (jsonData : string) (i : Z) : option string :=
  match index (keys format) i, index components i with
  | Some k, Some c =>
      let key := EscapeJSON k in
      let value := EscapeJSON (string_of_list_byte c) in
      if (i =? 0)%Z then Some ("{" ++ pair key value)
      else if (i =? maxIdx - 1)%Z then Some (jsonData ++ "," ++ pair key value ++ "}")
      else Some (jsonData ++ "," ++ pair key value)
  | _, _ => None
  end.

(** [for i := 0; i < maxIdx; i++]. *)
Definition rounds (format : SplitToJSON) (components : list (list byte))
    (maxIdx : Z) (jsonData : string) : option string :=
  fold_left (fun json i => match json with
                           | Some j => round format components maxIdx j (Z.of_nat i)
                           | None => None
                           end)
            (seq 0 (Z.to_nat maxIdx)) (Some jsonData).

(** Lines 74-95: the text built from the components. *)
Definition jsonOf (format : SplitToJSON) (components : list (list byte))
  : option string :=
  let maxIdx := MinI (Z.of_nat (List.length (keys format)))
                     (Z.of_nat (List.length components)) in
  if (maxIdx =? 0)%Z then Some ""
  else if (maxIdx =? 1)%Z then
    match index (keys format) 0, index components 0 with
    | Some k, Some c => Some ("{" ++ k ++ ":" ++ quote ++ string_of_list_byte c ++ quote ++ "}")
    | _, _ => None
    end
  else rounds format components maxIdx "".

(** [func (format *SplitToJSON) Format(msg core.Message) ([]byte, core.MessageStreamID)];
    [None] is a panic. *)
Definition Format (format : SplitToJSON) (msg : Message) : option (list byte * Z) :=
  let (data, streamID) := base format msg in
  match jsonOf format (Split data (token format)) with
  | Some jsonData => Some (list_byte_of_string jsonData, streamID)
  | None => None
  end.

(** The pair printed for a key and a component in the loop. *)
Definition escaped (p : string * list byte) : string :=
  pair (EscapeJSON (fst p)) (EscapeJSON (string_of_list_byte (snd p))).

(** The object printed for a list of keys and components: no text for no
    pair, the plain form of line 81 for one, and for more the escaped pairs
    between braces, with commas. *)
Definition render (pairs : list (string * list byte)) : string :=
  match pairs with
  | [] => ""
  | [(k, c)] => "{" ++ k ++ ":" ++ quote ++ string_of_list_byte c ++ quote ++ "}"
  | _ => "{" ++ String.concat "," (map escaped pairs) ++ "}"
  end.

End Formatter.
End SplitToJSON.

(** Reference implementations of what [splittojson.go] imports, for ASCII
    text. *)
Module ReferenceSplit.

Fixpoint isPrefix (sep s : list byte) : bool :=
  match sep, s with
  | [], _ => true
  | a :: sep', b :: s' => Byte.eqb a b && isPrefix sep' s'
  | _ :: _, [] => false
  end.

(** The components of [s] from left to right: [cur] holds the bytes of the
    component under way, in reverse, and [skip] the bytes of a separator just
    found that are still to be passed over. *)
Fixpoint splitFrom (sep s cur : list byte) (skip : nat) : list (list byte) :=
  match s with
  | [] => [rev cur]
  | b :: rest =>
      match skip with
      | S k => splitFrom sep rest cur k
      | O =>
          if isPrefix sep s
          then rev cur :: splitFrom sep rest [] (List.length sep - 1)
          else splitFrom sep rest (b :: cur) 0
      end
  end.

(** [bytes.Split]: with an empty separator every byte of an ASCII text is a
    component. *)
Definition split (s sep : list byte) : list (list byte) :=
  match sep with
  | [] => map (fun b => [b]) s
  | _ :: _ => splitFrom sep s [] 0
  end.

(** [shared.EscapeJSON]: a backslash before every double quote and
    backslash. *)
Fixpoint escapeJSON (s : string) : string :=
  match s with
  | EmptyString => EmptyString
  | String c rest =>
      if Ascii.eqb c (ascii_of_nat 34) || Ascii.eqb c (ascii_of_nat 92)
      then String (ascii_of_nat 92) (String c (escapeJSON rest))
      else String c (escapeJSON rest)
  end.

(** [format.Forward] hands the message on as it is. *)
Definition forward (msg : Message) : list byte * Z := (Data msg, StreamID msg).

#[export] Instance splitToJSONImports : SplitToJSONImports := {|
  Split := split;
  MinI := Z.min;
  EscapeJSON := escapeJSON;
  GetStringOr := fun conf key defaultValue => fst (GetString conf key defaultValue);
  GetStringArray := fun _ _ defaultValue => defaultValue;
  NewPluginWithType := fun name _ =>
    if String.eqb name "format.Forward" then inl (PluginFormatter forward)
    else inr (Errorf "unknown plugin");
|}.

Definition logLine : SplitToJSON.SplitToJSON :=
  {| SplitToJSON.base := forward;
     SplitToJSON.token := Reference.bytes "|";
     SplitToJSON.keys := ["timestamp"; "server"; "error"] |}.

End ReferenceSplit.

(** More sample configurations and consumers. *)
Module Samples.

Import Reference.

Definition confAsciiOffset : PluginConfig :=
  <["Partitioner" := VString "ASCII"]> (<["Offset" := VInt 5]> (<["Size" := VInt 9]> ∅)).

Definition usedProxy : Proxy.Proxy :=
  {| Proxy.base := tt; Proxy.listen := ListenNil; Proxy.protocol := "unix";
     Proxy.address := "/var/gollum.socket"; Proxy.flags := 99; Proxy.delimiter := ";";
     Proxy.offset := 7 |}.

(** The fuse is burned while the goroutine is on its way to [WaitOnFuse]. *)
Definition untilWait : list Lifecycle.label :=
  [Lifecycle.RunConsume; Lifecycle.RunConsume; Lifecycle.Burn;
   Lifecycle.RunAccept; Lifecycle.RunAccept].

Definition shutdownWhileWaiting : list Lifecycle.label :=
  [Lifecycle.Connect 1%nat; Lifecycle.Stop; Lifecycle.RunConsume; Lifecycle.RunConsume].

End Samples.

(* ===================================================================== *)
(** * Theorems *)
(* ===================================================================== *)

(** ** The error stack only grows *)

Lemma appends_ret {A : Type} (a : A) : appends (ret a).
Proof. intros stack. unfold ret. cbn. by rewrite app_nil_r. Qed.

Lemma appends_Push err : appends (Push err).
Proof. intros stack. unfold Push, ErrorStack.Push. destruct err; cbn; [done|]. by rewrite app_nil_r. Qed.

Lemma appends_Pushf msg : appends (Pushf msg).
Proof. intros stack. reflexivity. Qed.

Lemma appends_Str r : appends (Str r).
Proof. intros stack. unfold Str, ErrorStack.Push. destruct (snd r); cbn; [done|]. by rewrite app_nil_r. Qed.

Lemma appends_Int r : appends (Int r).
Proof. intros stack. unfold Int, ErrorStack.Push. destruct (snd r); cbn; [done|]. by rewrite app_nil_r. Qed.

Lemma appends_bind {A B : Type} (c : Collect A) (k : A -> Collect B) :
  appends c -> (forall a, appends (k a)) -> appends (bind c k).
Proof.
  intros Hc Hk stack. unfold bind.
  rewrite (Hc stack). rewrite (Hc []). cbn.
  rewrite (Hk (fst (c [])) (stack ++ snd (c []))%list).
  rewrite (Hk (fst (c [])) (snd (c []))). cbn.
  by rewrite app_assoc.
Qed.

Lemma appends_if {A : Type} (b : bool) (c1 c2 : Collect A) :
  appends c1 -> appends c2 -> appends (if b then c1 else c2).
Proof. by destruct b. Qed.

(** What a sequence leaves on the stack and returns, in terms of its parts
    run on the empty stack. *)
Lemma bind_stack {A B : Type} (c : Collect A) (k : A -> Collect B) stack :
  appends c -> (forall a, appends (k a)) ->
  snd (bind c k stack) = (stack ++ snd (c []) ++ snd (k (fst (c [])) []))%list.
Proof.
  intros Hc Hk. rewrite (appends_bind c k Hc Hk stack). cbn.
  unfold bind. destruct (c []) as [a st] eqn:E. cbn.
  rewrite (Hk a st). done.
Qed.

Lemma bind_value {A B : Type} (c : Collect A) (k : A -> Collect B) stack :
  appends c -> (forall a, appends (k a)) ->
  fst (bind c k stack) = fst (k (fst (c [])) []).
Proof.
  intros Hc Hk. rewrite (appends_bind c k Hc Hk stack). cbn.
  unfold bind. destruct (c []) as [a st] eqn:E. cbn.
  rewrite (Hk a st). done.
Qed.

Create HintDb collect.

#[local] Hint Resolve appends_ret appends_Push appends_Pushf appends_Str
  appends_Int appends_bind appends_if : collect.

Lemma ErrorOrNil_nil stack : ErrorStack.ErrorOrNil stack = None <-> stack = [].
Proof. destruct stack; cbn; split; congruence. Qed.

Lemma ErrorOrNil_some stack errs :
  ErrorStack.ErrorOrNil stack = Some errs -> errs = stack /\ stack <> [].
Proof. destruct stack; cbn; [congruence|]. intros [= <-]. split; congruence. Qed.

(** ** consumer.Proxy: Configure *)

Section ProxyConfigureFacts.

Context `{ProxyImports}.

Import Proxy.

Lemma switchSize_appends conf flags : appends (switchSize conf flags).
Proof.
  unfold switchSize. apply appends_bind; [auto with collect|].
  intros size. repeat (apply appends_if; [auto with collect|]).
  auto with collect.
Qed.

Lemma switchPartitioner_appends conf partitioner flags offset :
  appends (switchPartitioner conf partitioner flags offset).
Proof.
  pose proof switchSize_appends.
  unfold switchPartitioner. repeat (apply appends_if; auto 6 with collect).
Qed.

(** [Configure] step by step: the consumer it leaves and the errors it has
    pushed, in the order of the source. *)
Lemma configure_run cons conf :
  let bc := ConsumerBase_Configure (base cons) conf in
  let a := GetString conf "Address" ":5880" in
  let pa := ParseAddress (fst a) in
  let d := GetString conf "Delimiter" (String (ascii_of_nat 10) "") in
  let o := GetInt conf "Offset" 0 in
  let n := GetString conf "Partitioner" "delimiter" in
  let sw := switchPartitioner conf (ToLower (fst n)) BufferedReaderFlagEverything (fst o) [] in
  configure cons conf [] =
    ({| base := fst bc; listen := listen cons; protocol := snd pa;
        address := fst pa; flags := fst (fst sw); delimiter := Unescape (fst d);
        offset := snd (fst sw) |},
     (option_list (option_map BaseError (snd bc)) ++ option_list (snd a)
      ++ (if String.eqb (snd pa) "udp" then [Errorf msgUDP] else [])
      ++ option_list (snd d) ++ option_list (snd o) ++ option_list (snd n)
      ++ snd sw)%list).
Proof.
  cbv zeta. unfold configure.
  destruct (ConsumerBase_Configure (base cons) conf) as [base' baseErr].
  destruct (ParseAddress (fst (GetString conf "Address" ":5880"))) as [address' protocol'] eqn:Epa.
  unfold bind, Push, Pushf, Str, Int, ret. cbn [fst snd].
  rewrite Epa. cbn [fst snd].
  destruct (GetString conf "Address" ":5880") as [a1 a2].
  destruct (GetString conf "Delimiter" (String (ascii_of_nat 10) "")) as [d1 d2].
  destruct (GetInt conf "Offset" 0) as [o1 o2].
  destruct (GetString conf "Partitioner" "delimiter") as [n1 n2].
  cbn [fst snd] in *.
  destruct (String.eqb protocol' "udp"); cbn [fst snd];
    match goal with |- (let (_, _) := switchPartitioner ?c ?p ?f ?o ?st in _) = _ =>
      rewrite (switchPartitioner_appends c p f o st) end;
    f_equal; unfold ErrorStack.Push, ErrorStack.Pushf;
    destruct baseErr, a2, d2, o2, n2; cbn; rewrite <- ?app_assoc; reflexivity.
Qed.

Lemma Configure_eq cons conf :
  Configure cons conf =
    (fst (configure cons conf []), ErrorStack.ErrorOrNil (ConfigureErrors cons conf)).
Proof.
  unfold Configure, ConfigureErrors, ErrorStack.NewErrorStack.
  by destruct (configure cons conf []).
Qed.

Lemma GetString_error conf key def e :
  snd (GetString conf key def) = Some e -> e = LookupError key.
Proof.
  unfold GetString. destruct (conf !! key) as [[]|]; cbn; congruence.
Qed.

Lemma GetInt_error conf key def e :
  snd (GetInt conf key def) = Some e -> e = LookupError key.
Proof.
  unfold GetInt. destruct (conf !! key) as [[]|]; cbn; congruence.
Qed.

Lemma Errorf_not_in_lookup msg (r : option error) key :
  (forall e, r = Some e -> e = LookupError key) -> ~ In (Errorf msg) (option_list r).
Proof.
  intros Hr. destruct r as [e|]; cbn; [|tauto].
  intros [He|[]]. specialize (Hr e eq_refl). congruence.
Qed.

(** The errors [Pushf] has created are those of the UDP check and of the
    switch; everything else on the stack was returned by a callee. *)
Lemma Errorf_in_ConfigureErrors cons conf msg :
  In (Errorf msg) (ConfigureErrors cons conf) <->
  (protocolOf conf = "udp" /\ msg = msgUDP)
  \/ In (Errorf msg)
       (snd (switchPartitioner conf (partitionerOf conf) BufferedReaderFlagEverything
               (fst (GetInt conf "Offset" 0)) [])).
Proof.
  unfold ConfigureErrors, ErrorStack.NewErrorStack. rewrite configure_run. cbn [snd].
  fold (protocolOf conf). fold (partitionerOf conf).
  rewrite !in_app_iff.
  pose proof (Errorf_not_in_lookup msg _ _ (GetString_error conf "Address" ":5880")).
  pose proof (Errorf_not_in_lookup msg _ _
                (GetString_error conf "Delimiter" (String (ascii_of_nat 10) ""))).
  pose proof (Errorf_not_in_lookup msg _ _ (GetInt_error conf "Offset" 0)).
  pose proof (Errorf_not_in_lookup msg _ _ (GetString_error conf "Partitioner" "delimiter")).
  assert (~ In (Errorf msg)
            (option_list (option_map BaseError (snd (ConsumerBase_Configure (base cons) conf))))).
  { destruct (snd (ConsumerBase_Configure (base cons) conf)); cbn; [|tauto].
    intros [?|[]]. congruence. }
  destruct (String.eqb_spec (protocolOf conf) "udp") as [Hudp|Hudp]; cbn [In].
  - split.
    + intros [?|[?|[[Hm|[]]|[?|[?|[?|?]]]]]]; try tauto.
      left. split; [done|]. congruence.
    + intros [[_ ->]|?]; tauto.
  - split.
    + intros [?|[?|[[]|[?|[?|[?|?]]]]]]; tauto.
    + intros [[? _]|?]; [congruence|tauto].
Qed.

(** *** The two switches, case by case *)

Lemma switchSize_run conf flags :
  let size := fst (GetInt conf "Size" 4) in
  switchSize conf flags [] =
    (if (size =? 1)%Z then Z.lor flags BufferedReaderFlagMLE8
     else if (size =? 2)%Z then Z.lor flags BufferedReaderFlagMLE16
     else if (size =? 4)%Z then Z.lor flags BufferedReaderFlagMLE32
     else if (size =? 8)%Z then Z.lor flags BufferedReaderFlagMLE64
     else flags,
     (option_list (snd (GetInt conf "Size" 4))
      ++ if (size =? 1)%Z || (size =? 2)%Z || (size =? 4)%Z || (size =? 8)%Z
         then [] else [Errorf msgSize])%list).
Proof.
  cbv zeta. unfold switchSize, bind, Int, Pushf, ret, ErrorStack.Push, ErrorStack.Pushf.
  destruct (GetInt conf "Size" 4) as [size [e|]]; cbn [fst snd option_list];
    repeat (destruct (_ =? _)%Z; cbn; try reflexivity).
Qed.

Lemma switchPartitioner_binary conf partitioner flags offset :
  In partitioner binaryNames ->
  switchPartitioner conf partitioner flags offset [] =
    let s := switchSize conf
               (if String.eqb partitioner "binary_be"
                then Z.lor flags BufferedReaderFlagBigEndian else flags) [] in
    ((fst s, offset), snd s).
Proof.
  intros [<-|[<-|[<-|[]]]]; cbv zeta; unfold switchPartitioner, bind, ret;
    cbn -[switchSize]; by destruct (switchSize _ _ []).
Qed.

Lemma switchPartitioner_fixed conf flags offset :
  switchPartitioner conf "fixed" flags offset [] =
    ((Z.lor flags BufferedReaderFlagMLEFixed, fst (GetInt conf "Size" 1)),
     option_list (snd (GetInt conf "Size" 1))).
Proof.
  unfold switchPartitioner, bind, ret, Int, ErrorStack.Push. cbn.
  by destruct (snd (GetInt conf "Size" 1)).
Qed.

Lemma switchPartitioner_ascii conf flags offset :
  switchPartitioner conf "ascii" flags offset [] =
    ((Z.lor flags BufferedReaderFlagMLE, offset), []).
Proof. reflexivity. Qed.

Lemma switchPartitioner_delimiter conf flags offset :
  switchPartitioner conf "delimiter" flags offset [] = ((flags, offset), []).
Proof. reflexivity. Qed.

Lemma switchPartitioner_unknown conf partitioner flags offset :
  ~ In partitioner partitionerNames ->
  switchPartitioner conf partitioner flags offset [] =
    ((flags, offset), [Errorf (msgUnknown partitioner)]).
Proof.
  intros Hno. unfold switchPartitioner.
  assert (Hneq : forall n, In n partitionerNames -> String.eqb partitioner n = false).
  { intros n Hn. apply String.eqb_neq. intros ->. by apply Hno. }
  rewrite !Hneq by (cbn; tauto). reflexivity.
Qed.

(** The message of the unknown-partitioner error differs from the two fixed
    messages, whatever the partitioner. *)
Lemma msgUnknown_fresh partitioner :
  msgUnknown partitioner <> msgUDP /\ msgUnknown partitioner <> msgSize.
Proof. split; discriminate. Qed.

Lemma msgUnknown_inj p q : msgUnknown p = msgUnknown q -> p = q.
Proof. unfold msgUnknown. cbn. intros [= Heq]. exact Heq. Qed.

Lemma binarySizes_test size :
  (size =? 1)%Z || (size =? 2)%Z || (size =? 4)%Z || (size =? 8)%Z = true
  <-> In size binarySizes.
Proof.
  unfold binarySizes. cbn [In]. rewrite !orb_true_iff, !Z.eqb_eq. intuition congruence.
Qed.

(** Which errors the switch creates, and when. *)
Lemma Errorf_in_switch conf partitioner flags offset msg :
  In (Errorf msg) (snd (switchPartitioner conf partitioner flags offset [])) <->
  (In partitioner binaryNames /\ ~ In (fst (GetInt conf "Size" 4)) binarySizes
   /\ msg = msgSize)
  \/ (~ In partitioner partitionerNames /\ msg = msgUnknown partitioner).
Proof.
  destruct (in_dec string_dec partitioner partitionerNames) as [Hin|Hno].
  - assert (Hcase : In partitioner binaryNames
                    \/ ~ In partitioner binaryNames
                       /\ (partitioner = "fixed" \/ partitioner = "ascii"
                           \/ partitioner = "delimiter")).
    { unfold partitionerNames, binaryNames in *. cbn [In] in *.
      destruct Hin as [<-|[<-|[<-|[<-|[<-|[<-|[]]]]]]];
        first [ left; tauto
              | right; split; [intros [?|[?|[?|[]]]]; discriminate | tauto] ]. }
    destruct Hcase as [Hbin|[Hnb Hother]].
    + rewrite (switchPartitioner_binary _ _ _ _ Hbin). cbv zeta. cbn [snd].
      rewrite switchSize_run. cbv zeta. cbn [snd]. rewrite in_app_iff.
      pose proof (Errorf_not_in_lookup msg _ _ (GetInt_error conf "Size" 4)) as Hl.
      pose proof (binarySizes_test (fst (GetInt conf "Size" 4))) as Ht.
      destruct ((_ =? 1)%Z || _ || _ || _); cbn [In].
      * split; [tauto|]. intros [(_ & Hs & _)|[? _]]; [|tauto].
        exfalso. apply Hs. by apply Ht.
      * split.
        -- intros [?|[Hm|[]]]; [tauto|]. left. repeat split; [done| |congruence].
           intros Hs. apply Ht in Hs. discriminate.
        -- intros [(_ & _ & ->)|[? _]]; tauto.
    + assert (Hnone : ~ In (Errorf msg)
                        (snd (switchPartitioner conf partitioner flags offset []))).
      { destruct Hother as [-> | [-> | ->]].
        - rewrite switchPartitioner_fixed. cbn [snd].
          apply (Errorf_not_in_lookup msg _ _ (GetInt_error conf "Size" 1)).
        - rewrite switchPartitioner_ascii. cbn. tauto.
        - rewrite switchPartitioner_delimiter. cbn. tauto. }
      tauto.
  - rewrite (switchPartitioner_unknown _ _ _ _ Hno). cbn [snd In].
    assert (~ In partitioner binaryNames).
    { intros Hb. apply Hno. unfold partitionerNames, binaryNames in *. cbn [In] in *. tauto. }
    split.
    + intros [Heq|[]]. injection Heq as <-. tauto.
    + intros [(? & _)|[_ ->]]; tauto.
Qed.

(** When each of the three errors of [Configure]'s own is on the stack. *)
Lemma msgUDP_pushed cons conf :
  In (Errorf msgUDP) (ConfigureErrors cons conf) <-> protocolOf conf = "udp".
Proof.
  rewrite Errorf_in_ConfigureErrors, Errorf_in_switch.
  destruct (msgUnknown_fresh (partitionerOf conf)) as [Hu _].
  split.
  - intros [[? _]|[(_ & _ & ?)|[_ ?]]]; [done|discriminate|congruence].
  - intros ?. left. done.
Qed.

Lemma msgSize_pushed cons conf :
  In (Errorf msgSize) (ConfigureErrors cons conf)
  <-> In (partitionerOf conf) binaryNames
      /\ ~ In (fst (GetInt conf "Size" 4)) binarySizes.
Proof.
  rewrite Errorf_in_ConfigureErrors, Errorf_in_switch.
  destruct (msgUnknown_fresh (partitionerOf conf)) as [_ Hu].
  split.
  - intros [[_ ?]|[(? & ? & _)|[_ ?]]]; [discriminate|done|congruence].
  - intros [? ?]. right. left. done.
Qed.

Lemma msgUnknown_pushed cons conf partitioner :
  In (Errorf (msgUnknown partitioner)) (ConfigureErrors cons conf)
  <-> ~ In (partitionerOf conf) partitionerNames /\ partitioner = partitionerOf conf.
Proof.
  rewrite Errorf_in_ConfigureErrors, Errorf_in_switch.
  destruct (msgUnknown_fresh partitioner) as [Hu Hs].
  split.
  - intros [[_ ?]|[(_ & _ & ?)|[? Heq]]]; [done|done|].
    split; [done|]. by apply msgUnknown_inj.
  - intros [? ->]. right. right. done.
Qed.

Lemma ErrorOrNil_in stack err :
  In err stack -> ErrorStack.ErrorOrNil stack = Some stack.
Proof. by destruct stack. Qed.

(** C6: an address whose protocol is UDP makes [Configure] push the UDP error
    and return an error, an address of any other protocol does not push it;
    either way [Configure] stores the protocol it parsed and leaves
    [cons.listen] as it found it, so no socket is opened while configuring. *)
Theorem Configure_rejects_udp cons conf :
  protocol (fst (Configure cons conf)) = protocolOf conf
  /\ (In (Errorf msgUDP) (ConfigureErrors cons conf) <-> protocolOf conf = "udp")
  /\ (protocolOf conf = "udp" ->
      exists errs, snd (Configure cons conf) = Some errs /\ In (Errorf msgUDP) errs)
  /\ listen (fst (Configure cons conf)) = listen cons.
Proof.
  pose proof (msgUDP_pushed cons conf) as Hiff.
  rewrite Configure_eq. cbn [fst snd]. rewrite configure_run. cbn [fst protocol listen].
  repeat split; try apply Hiff.
  intros Hudp. apply Hiff in Hudp.
  destruct (ConfigureErrors cons conf) as [|e errs] eqn:E; [destruct Hudp|].
  exists (e :: errs). split; [reflexivity|exact Hudp].
Qed.

Lemma GetInt_Size conf def size :
  conf !! "Size" = Some (VInt size) \/ conf !! "Size" = None /\ size = def ->
  GetInt conf "Size" def = (size, None).
Proof. unfold GetInt. by intros [->|[-> ->]]. Qed.

(** The flags of a binary partitioner, as one expression in [Size]. *)
Lemma Configure_binary_flags cons conf :
  In (partitionerOf conf) binaryNames ->
  let size := fst (GetInt conf "Size" 4) in
  let kept := if String.eqb (partitionerOf conf) "binary_be"
              then Z.lor BufferedReaderFlagEverything BufferedReaderFlagBigEndian
              else BufferedReaderFlagEverything in
  flags (fst (Configure cons conf)) =
    if (size =? 1)%Z then Z.lor kept BufferedReaderFlagMLE8
    else if (size =? 2)%Z then Z.lor kept BufferedReaderFlagMLE16
    else if (size =? 4)%Z then Z.lor kept BufferedReaderFlagMLE32
    else if (size =? 8)%Z then Z.lor kept BufferedReaderFlagMLE64
    else kept.
Proof.
  intros Hbin. cbv zeta. rewrite Configure_eq. cbn [fst]. rewrite configure_run.
  cbn [fst flags]. fold (partitionerOf conf).
  rewrite (switchPartitioner_binary _ _ _ _ Hbin). cbv zeta. cbn [fst].
  rewrite switchSize_run. reflexivity.
Qed.

Lemma hasFlag_lor_same flags flag : hasFlag (Z.lor flags flag) flag = true.
Proof.
  unfold hasFlag. apply Z.eqb_eq. apply Z.bits_inj'. intros n _.
  rewrite Z.land_spec, Z.lor_spec.
  by destruct (Z.testbit flags n), (Z.testbit flag n).
Qed.

Lemma hasFlag_lor_l flags extra flag :
  hasFlag flags flag = true -> hasFlag (Z.lor flags extra) flag = true.
Proof.
  unfold hasFlag. rewrite !Z.eqb_eq. intros Hf.
  apply Z.bits_inj'. intros n _.
  apply (f_equal (fun z => Z.testbit z n)) in Hf.
  rewrite Z.land_spec in Hf. rewrite Z.land_spec, Z.lor_spec.
  by destruct (Z.testbit flags n), (Z.testbit extra n), (Z.testbit flag n).
Qed.

Lemma hasFlag_disjoint flags flag :
  flag <> 0%Z -> Z.land flags flag = 0%Z -> hasFlag flags flag = false.
Proof. unfold hasFlag. intros Hf ->. apply Z.eqb_neq. congruence. Qed.

Lemma GetInt_error_default conf key def def' :
  snd (GetInt conf key def) = snd (GetInt conf key def').
Proof. unfold GetInt. by destruct (conf !! key) as [[]|]. Qed.

(** A known partitioner with a well-typed, valid size pushes nothing. *)
Lemma switchPartitioner_clean conf flags offset :
  snd (GetInt conf "Size" 4) = None ->
  In (partitionerOf conf) partitionerNames ->
  (In (partitionerOf conf) binaryNames -> In (fst (GetInt conf "Size" 4)) binarySizes) ->
  snd (switchPartitioner conf (partitionerOf conf) flags offset []) = [].
Proof.
  intros Hs Hknown Hsize.
  unfold partitionerNames in Hknown. cbn [In] in Hknown.
  assert (Hbin : forall flags', In (fst (GetInt conf "Size" 4)) binarySizes ->
                 snd (switchSize conf flags' []) = []).
  { intros flags' Hv. rewrite switchSize_run. cbv zeta. cbn [snd]. rewrite Hs.
    apply binarySizes_test in Hv. by rewrite Hv. }
  destruct Hknown as [<-|[<-|[Hk|[Hk|[Hk|[<-|[]]]]]]].
  - reflexivity.
  - reflexivity.
  - rewrite switchPartitioner_binary by (rewrite <- Hk; cbn; tauto).
    cbv zeta. cbn [snd]. apply Hbin, Hsize. rewrite <- Hk. cbn. tauto.
  - rewrite switchPartitioner_binary by (rewrite <- Hk; cbn; tauto).
    cbv zeta. cbn [snd]. apply Hbin, Hsize. rewrite <- Hk. cbn. tauto.
  - rewrite switchPartitioner_binary by (rewrite <- Hk; cbn; tauto).
    cbv zeta. cbn [snd]. apply Hbin, Hsize. rewrite <- Hk. cbn. tauto.
  - rewrite switchPartitioner_fixed. cbn [snd].
    by rewrite (GetInt_error_default conf "Size" 1 4), Hs.
Qed.

(** C3: for the three binary kinds, [Size] (4 when absent) selects the
    length-field flag: 1, 2, 4 and 8 give the 8, 16, 32 and 64 bit flag, added
    to the flags kept so far, which include the big-endian flag exactly for
    binary_be; any other [Size] adds no flag, pushes the size error and makes
    [Configure] return an error.  When the big-endian bit is a bit of its own,
    the configured flags have it exactly for binary_be. *)
Theorem Configure_binary_size cons conf size :
  In (partitionerOf conf) binaryNames ->
  conf !! "Size" = Some (VInt size) \/ conf !! "Size" = None /\ size = 4%Z ->
  let cons' := fst (Configure cons conf) in
  let errors := ConfigureErrors cons conf in
  let kept := if String.eqb (partitionerOf conf) "binary_be"
              then Z.lor BufferedReaderFlagEverything BufferedReaderFlagBigEndian
              else BufferedReaderFlagEverything in
  (size = 1%Z -> flags cons' = Z.lor kept BufferedReaderFlagMLE8)
  /\ (size = 2%Z -> flags cons' = Z.lor kept BufferedReaderFlagMLE16)
  /\ (size = 4%Z -> flags cons' = Z.lor kept BufferedReaderFlagMLE32)
  /\ (size = 8%Z -> flags cons' = Z.lor kept BufferedReaderFlagMLE64)
  /\ (~ In size binarySizes -> flags cons' = kept)
  /\ (In (Errorf msgSize) errors <-> ~ In size binarySizes)
  /\ (~ In size binarySizes -> snd (Configure cons conf) = Some errors)
  /\ (BufferedReaderFlagBigEndian <> 0%Z ->
      Forall (fun flag => Z.land flag BufferedReaderFlagBigEndian = 0%Z)
        [BufferedReaderFlagEverything; BufferedReaderFlagMLE8; BufferedReaderFlagMLE16;
         BufferedReaderFlagMLE32; BufferedReaderFlagMLE64] ->
      hasFlag (flags cons') BufferedReaderFlagBigEndian = true
      <-> partitionerOf conf = "binary_be").
Proof.
  intros Hbin Hsize. cbv zeta.
  pose proof (Configure_binary_flags cons conf Hbin) as Hflags. cbv zeta in Hflags.
  rewrite (GetInt_Size _ _ _ Hsize) in Hflags. cbn [fst] in Hflags.
  assert (Herr : In (Errorf msgSize) (ConfigureErrors cons conf) <-> ~ In size binarySizes).
  { rewrite msgSize_pushed, (GetInt_Size _ _ _ Hsize). cbn [fst]. tauto. }
  assert (Hnot : ~ In size binarySizes ->
                 (size =? 1)%Z = false /\ (size =? 2)%Z = false
                 /\ (size =? 4)%Z = false /\ (size =? 8)%Z = false).
  { intros Hn. unfold binarySizes in Hn. cbn [In] in Hn.
    rewrite !Z.eqb_neq. repeat split; intros ->; tauto. }
  repeat split.
  - intros ->. exact Hflags.
  - intros ->. exact Hflags.
  - intros ->. exact Hflags.
  - intros ->. exact Hflags.
  - intros Hn. destruct (Hnot Hn) as (E1 & E2 & E4 & E8).
    by rewrite Hflags, E1, E2, E4, E8.
  - apply Herr.
  - apply Herr.
  - intros Hn. rewrite Configure_eq. cbn [snd]. apply Herr in Hn.
    by destruct (ConfigureErrors cons conf).
  - intros Hflag. destruct (String.eqb_spec (partitionerOf conf) "binary_be"); [done|].
    exfalso. clear Herr Hnot.
    match goal with Hd : Forall _ _ |- _ =>
      inversion Hd as [|? ? HE Hd1]; subst; inversion Hd1 as [|? ? H8 Hd2]; subst;
      inversion Hd2 as [|? ? H16 Hd3]; subst; inversion Hd3 as [|? ? H32 Hd4]; subst;
      inversion Hd4 as [|? ? H64 _]; subst end.
    assert (Hzero : Z.land (flags (fst (Configure cons conf))) BufferedReaderFlagBigEndian = 0%Z).
    { rewrite Hflags. repeat destruct (_ =? _)%Z;
        rewrite ?Z.land_lor_distr_l, ?HE, ?H8, ?H16, ?H32, ?H64; reflexivity. }
    rewrite hasFlag_disjoint in Hflag; [discriminate|done|exact Hzero].
  - intros Hbe. rewrite Hbe, String.eqb_refl in Hflags. rewrite Hflags.
    repeat destruct (_ =? _)%Z;
      first [ apply hasFlag_lor_same | apply hasFlag_lor_l; apply hasFlag_lor_same ].
Qed.

Lemma GetString_insert_ne conf key other v def :
  other <> key -> GetString (<[other := v]> conf) key def = GetString conf key def.
Proof. intros Hne. unfold GetString. by rewrite lookup_insert_ne. Qed.

Lemma GetInt_insert_ne conf key other v def :
  other <> key -> GetInt (<[other := v]> conf) key def = GetInt conf key def.
Proof. intros Hne. unfold GetInt. by rewrite lookup_insert_ne. Qed.

Lemma Configure_fixed_fields cons conf :
  partitionerOf conf = "fixed" ->
  offset (fst (Configure cons conf)) = fst (GetInt conf "Size" 1)
  /\ flags (fst (Configure cons conf))
     = Z.lor BufferedReaderFlagEverything BufferedReaderFlagMLEFixed.
Proof.
  intros Hfixed. rewrite Configure_eq. cbn [fst]. rewrite configure_run.
  cbn [fst flags offset]. fold (partitionerOf conf). rewrite Hfixed.
  rewrite switchPartitioner_fixed. done.
Qed.

Lemma tryExtractFixed_found size buffer frame rest :
  tryExtractFixed size buffer = Found frame rest ->
  Z.of_nat (List.length frame) = size /\ buffer = (frame ++ rest)%list.
Proof.
  unfold tryExtractFixed.
  destruct (0 <? size)%Z eqn:Epos; [|discriminate].
  destruct (size <=? Z.of_nat (List.length buffer))%Z eqn:Elen; [|discriminate].
  cbn [andb]. intros [= <- <-].
  apply Z.ltb_lt in Epos. apply Z.leb_le in Elen. split.
  - rewrite length_take. lia.
  - by rewrite take_drop.
Qed.

(** C4: for the fixed kind the offset field receives [Size] (1 when absent),
    whatever [Offset] is configured, and the flags select the fixed-length
    reader; a reader for frames of [offset] bytes then yields frames of
    exactly [Size] bytes. *)
Theorem Configure_fixed_offset_is_size cons conf :
  partitionerOf conf = "fixed" ->
  let size := fst (GetInt conf "Size" 1) in
  let cons' := fst (Configure cons conf) in
  offset cons' = size
  /\ (conf !! "Size" = None -> offset cons' = 1%Z)
  /\ (forall n, conf !! "Size" = Some (VInt n) -> offset cons' = n)
  /\ flags cons' = Z.lor BufferedReaderFlagEverything BufferedReaderFlagMLEFixed
  /\ (forall v,
        offset (fst (Configure cons (<["Offset" := v]> conf))) = offset cons'
        /\ flags (fst (Configure cons (<["Offset" := v]> conf))) = flags cons')
  /\ (forall buffer frame rest,
        tryExtractFixed (offset cons') buffer = Found frame rest ->
        Z.of_nat (List.length frame) = size /\ buffer = (frame ++ rest)%list).
Proof.
  intros Hfixed. cbv zeta.
  destruct (Configure_fixed_fields cons conf Hfixed) as [Hoff Hfl].
  repeat split.
  - exact Hoff.
  - intros Hnone. rewrite Hoff. unfold GetInt. by rewrite Hnone.
  - intros n Hn. rewrite Hoff. unfold GetInt. by rewrite Hn.
  - exact Hfl.
  - assert (Hfixed' : partitionerOf (<["Offset" := v]> conf) = "fixed").
    { unfold partitionerOf. by rewrite GetString_insert_ne. }
    destruct (Configure_fixed_fields cons _ Hfixed') as [Hoff' _].
    rewrite Hoff', Hoff. by rewrite GetInt_insert_ne.
  - assert (Hfixed' : partitionerOf (<["Offset" := v]> conf) = "fixed").
    { unfold partitionerOf. by rewrite GetString_insert_ne. }
    destruct (Configure_fixed_fields cons _ Hfixed') as [_ Hfl'].
    by rewrite Hfl', Hfl.
  - rewrite Hoff in *. by eapply tryExtractFixed_found.
  - by eapply tryExtractFixed_found.
Qed.

Lemma switchPartitioner_insert_Partitioner conf v partitioner flags offset :
  switchPartitioner (<["Partitioner" := v]> conf) partitioner flags offset
  = switchPartitioner conf partitioner flags offset.
Proof.
  unfold switchPartitioner, switchSize. by rewrite !GetInt_insert_ne.
Qed.

Lemma partitionerOf_lookup conf name :
  conf !! "Partitioner" = Some (VString name) -> partitionerOf conf = ToLower name.
Proof. intros Hname. unfold partitionerOf, GetString. by rewrite Hname. Qed.

Lemma Configure_switch_fields cons conf :
  let sw := switchPartitioner conf (partitionerOf conf) BufferedReaderFlagEverything
              (fst (GetInt conf "Offset" 0)) [] in
  flags (fst (Configure cons conf)) = fst (fst sw)
  /\ offset (fst (Configure cons conf)) = snd (fst sw).
Proof.
  cbv zeta. rewrite Configure_eq. cbn [fst]. rewrite configure_run. done.
Qed.

(** C9: the switch sees the partitioner name in lower case.  A name whose
    lower-case form is one of the six known names configures the same flags
    and offset as that lower-case form and pushes no unknown-partitioner
    error; any other name pushes the unknown-partitioner error, which names
    the lower-case form, and makes [Configure] return an error. *)
Theorem Configure_partitioner_case_insensitive cons conf name :
  Forall (fun n => ToLower n = n) partitionerNames ->
  conf !! "Partitioner" = Some (VString name) ->
  let lower := ToLower name in
  let cons' := fst (Configure cons conf) in
  let consL := fst (Configure cons (<["Partitioner" := VString lower]> conf)) in
  (In lower partitionerNames ->
     flags cons' = flags consL /\ offset cons' = offset consL
     /\ forall p, ~ In (Errorf (msgUnknown p)) (ConfigureErrors cons conf))
  /\ (~ In lower partitionerNames ->
     In (Errorf (msgUnknown lower)) (ConfigureErrors cons conf)
     /\ exists errs, snd (Configure cons conf) = Some errs
                     /\ In (Errorf (msgUnknown lower)) errs).
Proof.
  intros Hfix Hname. cbv zeta.
  pose proof (partitionerOf_lookup conf name Hname) as Hp.
  split.
  - intros Hknown.
    assert (Hlow : ToLower (ToLower name) = ToLower name).
    { by apply (proj1 (List.Forall_forall _ _) Hfix). }
    assert (HpL : partitionerOf (<["Partitioner" := VString (ToLower name)]> conf)
                  = ToLower name).
    { rewrite (partitionerOf_lookup _ (ToLower name)); [done|]. apply lookup_insert_eq. }
    destruct (Configure_switch_fields cons conf) as [Hf Ho].
    destruct (Configure_switch_fields cons
                (<["Partitioner" := VString (ToLower name)]> conf)) as [HfL HoL].
    cbv zeta in *.
    rewrite HpL, switchPartitioner_insert_Partitioner, GetInt_insert_ne in HfL, HoL
      by discriminate.
    rewrite Hp in Hf, Ho.
    repeat split; [congruence|congruence|].
    intros p. rewrite msgUnknown_pushed, Hp. tauto.
  - intros Hunknown.
    assert (Hin : In (Errorf (msgUnknown (ToLower name))) (ConfigureErrors cons conf)).
    { rewrite msgUnknown_pushed, Hp. done. }
    split; [exact Hin|].
    rewrite Configure_eq. cbn [snd].
    destruct (ConfigureErrors cons conf) as [|e errs]; [destruct Hin|].
    by exists (e :: errs).
Qed.

End ProxyConfigureFacts.

(** ** format.Base64Decode: Configure *)

Section Base64ConfigureFacts.

Context `{Base64Imports}.

Import Base64Decode.

Lemma Base64Decode_Configure_eq format conf :
  Configure format conf =
    match fst (configure format conf []) with
    | Some format' => Some (format', ErrorStack.ErrorOrNil (ConfigureErrors format conf))
    | None => None
    end.
Proof.
  unfold Configure, ConfigureErrors, ErrorStack.NewErrorStack.
  by destruct (configure format conf []).
Qed.

(** [Configure] step by step. *)
Lemma Base64Decode_configure_run format conf :
  let bc := FormatterBase_Configure (base format) conf in
  let dict := fst (GetString conf "Dictionary" "") in
  configure format conf [] =
    (if String.eqb dict "" then Some {| base := fst bc; dictionary := StdEncoding |}
     else match NewEncoding dict with
          | Some encoding => Some {| base := fst bc; dictionary := encoding |}
          | None => None
          end,
     (option_list (option_map BaseError (snd bc))
      ++ option_list (snd (GetString conf "Dictionary" ""))
      ++ if String.eqb dict "" then []
         else if (Z.of_nat (String.length dict) =? 64)%Z then []
         else [Errorf msgDictionary])%list).
Proof.
  cbv zeta. unfold configure.
  destruct (FormatterBase_Configure (base format) conf) as [base' baseErr].
  unfold bind, Push, Pushf, Str, ret, ErrorStack.Push, ErrorStack.Pushf. cbn [fst snd].
  destruct (GetString conf "Dictionary" "") as [dict dictErr]. cbn [fst snd].
  destruct (String.eqb dict ""); [|destruct (_ =? _)%Z]; cbn [negb];
    destruct baseErr, dictErr; cbn; rewrite ?app_nil_r; reflexivity.
Qed.

(** [Configure] returns unless [NewEncoding] is called and panics. *)
Lemma Base64Decode_Configure_panics format conf :
  let dict := fst (GetString conf "Dictionary" "") in
  Configure format conf = None <-> dict <> "" /\ NewEncoding dict = None.
Proof.
  cbv zeta. rewrite Base64Decode_Configure_eq, Base64Decode_configure_run. cbn [fst].
  destruct (String.eqb_spec (fst (GetString conf "Dictionary" "")) "") as [Hd|Hd].
  - split; [discriminate|]. by intros [? _].
  - destruct (NewEncoding _); split; try done. by intros [_ ?].
Qed.

(** What [Configure] has done when it returns. *)
Lemma Base64Decode_Configure_returns format conf format' err :
  let dict := fst (GetString conf "Dictionary" "") in
  Configure format conf = Some (format', err) ->
  err = ErrorStack.ErrorOrNil (ConfigureErrors format conf)
  /\ base format' = fst (FormatterBase_Configure (base format) conf)
  /\ (if String.eqb dict "" then dictionary format' = StdEncoding
      else NewEncoding dict = Some (dictionary format')).
Proof.
  cbv zeta. rewrite Base64Decode_Configure_eq, Base64Decode_configure_run. cbn [fst].
  destruct (String.eqb (fst (GetString conf "Dictionary" "")) "").
  - intros Heq. injection Heq as <- <-. done.
  - destruct (NewEncoding _); [|done]. intros Heq. injection Heq as <- <-. done.
Qed.

Lemma Errorf_in_Base64Decode_errors format conf :
  let dict := fst (GetString conf "Dictionary" "") in
  In (Errorf msgDictionary) (ConfigureErrors format conf)
  <-> dict <> "" /\ String.length dict <> 64%nat.
Proof.
  cbv zeta. unfold ConfigureErrors, ErrorStack.NewErrorStack.
  rewrite Base64Decode_configure_run. cbn [snd]. rewrite !in_app_iff.
  assert (Hb : ~ In (Errorf msgDictionary)
            (option_list (option_map BaseError
               (snd (FormatterBase_Configure (base format) conf))))).
  { destruct (snd (FormatterBase_Configure (base format) conf)); cbn; [|tauto].
    intros [?|[]]. congruence. }
  assert (Hl : ~ In (Errorf msgDictionary) (option_list (snd (GetString conf "Dictionary" "")))).
  { destruct (snd (GetString conf "Dictionary" "")) as [e|] eqn:E; cbn; [|tauto].
    apply GetString_error in E. intros [?|[]]. congruence. }
  destruct (String.eqb_spec (fst (GetString conf "Dictionary" "")) "") as [Hd|Hd].
  - cbn [In]. tauto.
  - destruct (Z.eqb_spec (Z.of_nat (String.length (fst (GetString conf "Dictionary" "")))) 64)
      as [Hn|Hn]; cbn [In].
    + split; [tauto|]. intros [_ Hlen]. lia.
    + split; [|tauto]. intros _. split; [done|]. lia.
Qed.

End Base64ConfigureFacts.

(** ** format.Base64Decode: Format *)

Section Base64FormatFacts.

Context `{Base64Imports}.

Import Base64Decode.

Lemma make_nonneg n : (0 <= n)%Z -> make n = Some (repeat x00 (Z.to_nat n)).
Proof. intros Hn. unfold make. destruct (Z.ltb_spec n 0); [lia|done]. Qed.

Lemma sliceTo_in_range s hi :
  (0 <= hi <= Z.of_nat (List.length s))%Z ->
  sliceTo s hi = Some (firstn (Z.to_nat hi) s)
  /\ Z.of_nat (List.length (firstn (Z.to_nat hi) s)) = hi.
Proof.
  intros [Hlo Hhi]. unfold sliceTo.
  destruct (Z.leb_spec 0 hi); [|lia].
  destruct (Z.leb_spec hi (Z.of_nat (List.length s))); [|lia].
  split; [done|]. rewrite length_take. lia.
Qed.

(** Whatever [Format] returns carries the stream of its message. *)
Lemma Format_StreamID format msg log payload streamID log' :
  Format format msg log = Some (payload, streamID, log') -> streamID = StreamID msg.
Proof.
  unfold Format. destruct (make _) as [decoded|]; [|done].
  destruct (Decode _ _ _) as [[decoded' size] err].
  destruct (sliceTo decoded' size); [|done]. by intros [= _ <- _].
Qed.

(** C10: when [Decode] reports [size] bytes written, within the buffer it was
    given, [Format] returns: the payload is the first [size] bytes of that
    buffer, the stream is the one of the message, and the error log grows by
    the decoding error when there is one and stays as it is otherwise.  So a
    payload that fails partway yields the bytes decoded before the failure,
    and a payload without error yields all decoded bytes. *)
Theorem Format_returns_decoded_prefix format msg log decoded' size err :
  let n := DecodedLen (dictionary format) (Z.of_nat (List.length (Data msg))) in
  (0 <= n)%Z ->
  Decode (dictionary format) (repeat x00 (Z.to_nat n)) (Data msg) = (decoded', size, err) ->
  (0 <= size <= Z.of_nat (List.length decoded'))%Z ->
  exists payload log',
    Format format msg log = Some (payload, StreamID msg, log')
    /\ payload = firstn (Z.to_nat size) decoded'
    /\ Z.of_nat (List.length payload) = size
    /\ (err = None -> log' = log)
    /\ (forall e, err = Some e -> log' = (log ++ [LogError "" e])%list)
    /\ (forall payload0 streamID0 log0,
          Format format msg log = Some (payload0, streamID0, log0) ->
          streamID0 = StreamID msg).
Proof.
  intros n Hn Hdecode Hsize.
  destruct (sliceTo_in_range decoded' size Hsize) as [Hslice Hlen].
  exists (firstn (Z.to_nat size) decoded'),
         (match err with
          | Some e => (log ++ [LogError "" e])%list
          | None => log
          end).
  split.
  { unfold Format. fold n. rewrite (make_nonneg n Hn), Hdecode, Hslice. done. }
  repeat split; try done.
  - by intros ->.
  - by intros e ->.
  - intros payload0 streamID0 log0. apply Format_StreamID.
Qed.

End Base64FormatFacts.

(** ** The reference decoder keeps to what [Decode] promises *)

Lemma decodeQuanta_length alphabet src at_ :
  (Z.of_nat (List.length (fst (Reference.decodeQuanta alphabet src at_)))
   <= Z.of_nat (List.length src) / 4 * 3)%Z.
Proof.
  remember (List.length src) as n eqn:Hn.
  revert src at_ Hn. induction n as [n IH] using lt_wf_ind. intros src at_ ->.
  destruct src as [|c0 [|c1 [|c2 [|c3 rest]]]];
    try (cbn; Z.to_euclidean_division_equations; lia).
  cbn [Reference.decodeQuanta].
  specialize (IH (List.length rest) ltac:(cbn; lia) rest (at_ + 4)%Z eq_refl).
  assert (Hlen : Z.of_nat (List.length (c0 :: c1 :: c2 :: c3 :: rest))
                 = (Z.of_nat (List.length rest) + 4)%Z) by (cbn [List.length]; lia).
  rewrite Hlen.
  destruct (Reference.sextet alphabet c0), (Reference.sextet alphabet c1);
    try (cbn; Z.to_euclidean_division_equations; lia).
  destruct (Reference.sextet alphabet c2), (Reference.sextet alphabet c3);
    try (destruct rest; [destruct (_ : bool)|]; cbn;
         Z.to_euclidean_division_equations; lia).
  destruct (Reference.decodeQuanta alphabet rest (at_ + 4)%Z) as [out err].
  cbn [fst List.length] in *. Z.to_euclidean_division_equations. lia.
Qed.

Lemma decode_in_buffer alphabet dst src :
  Z.of_nat (List.length dst) = (Z.of_nat (List.length src) / 4 * 3)%Z ->
  let '(dst', n, _) := Reference.decode alphabet dst src in
  List.length dst' = List.length dst /\ (0 <= n <= Z.of_nat (List.length dst'))%Z.
Proof.
  intros Hdst. unfold Reference.decode.
  pose proof (decodeQuanta_length alphabet src 0) as Hlen.
  destruct (Reference.decodeQuanta alphabet src 0) as [out err]. cbn [fst] in Hlen.
  rewrite length_app, length_drop. lia.
Qed.

(** With the reference decoder [Format] returns on every message. *)
Lemma Format_reference_returns
    (format : Base64Decode.Base64Decode (H := Reference.base64Imports))
    (msg : Message) (log : list log_entry) :
  exists payload log',
    Base64Decode.Format format msg log = Some (payload, StreamID msg, log').
Proof.
  unfold Base64Decode.Format. cbn [DecodedLen Decode Reference.base64Imports].
  set (n := (Z.of_nat (List.length (Data msg)) / 4 * 3)%Z).
  assert (Hn : (0 <= n)%Z) by (unfold n; Z.to_euclidean_division_equations; lia).
  rewrite (make_nonneg n Hn).
  pose proof (decode_in_buffer (Base64Decode.dictionary format)
                (repeat x00 (Z.to_nat n)) (Data msg)) as Hdec.
  rewrite repeat_length in Hdec. specialize (Hdec ltac:(unfold n in *; lia)).
  destruct (Reference.decode _ _ _) as [[decoded' size] err].
  destruct Hdec as [_ Hsize].
  destruct (sliceTo_in_range decoded' size Hsize) as [-> _]. eauto.
Qed.

(** ** Both plugins: what becomes of the violations *)

Section ConfigureFacts.

Context `{ProxyImports} `{Base64Imports}.

(** C5: [Proxy.Configure] returns the whole error stack as its one error,
    and no error when the stack is empty.  Each violation is on the stack
    exactly when it occurs, whatever else occurs: the UDP protocol, a binary
    size other than 1, 2, 4 and 8, an unknown partitioner; the error of the
    embedded base is kept too, and a configuration without violation returns
    no error.  [Base64Decode.Configure] pushes the error of a custom
    dictionary whose length is not 64 on its stack in the same way, and
    returns the whole stack whenever it returns.  But line 59 hands every
    custom dictionary to [NewEncoding], which panics on one whose length is
    not 64: the violation pushed in line 57 is on the stack and [Configure]
    does not return, so this violation is never reported. *)
Theorem Configure_collects_violations
    (cons : Proxy.Proxy) (conf : PluginConfig)
    (format : Base64Decode.Base64Decode) (fconf : PluginConfig) :
  let errors := Proxy.ConfigureErrors cons conf in
  let ferrors := Base64Decode.ConfigureErrors format fconf in
  let dict := fst (GetString fconf "Dictionary" "") in
  snd (Proxy.Configure cons conf) = match errors with [] => None | _ :: _ => Some errors end
  /\ (In (Errorf Proxy.msgUDP) errors <-> Proxy.protocolOf conf = "udp")
  /\ (In (Errorf Proxy.msgSize) errors
      <-> In (Proxy.partitionerOf conf) Proxy.binaryNames
          /\ ~ In (fst (GetInt conf "Size" 4)) Proxy.binarySizes)
  /\ (In (Errorf (Proxy.msgUnknown (Proxy.partitionerOf conf))) errors
      <-> ~ In (Proxy.partitionerOf conf) Proxy.partitionerNames)
  /\ (forall msg, snd (ConsumerBase_Configure (Proxy.base cons) conf) = Some msg ->
                  In (BaseError msg) errors)
  /\ (snd (ConsumerBase_Configure (Proxy.base cons) conf) = None ->
      Proxy.optionsWellTyped conf ->
      Proxy.protocolOf conf <> "udp" ->
      In (Proxy.partitionerOf conf) Proxy.partitionerNames ->
      (In (Proxy.partitionerOf conf) Proxy.binaryNames ->
       In (fst (GetInt conf "Size" 4)) Proxy.binarySizes) ->
      snd (Proxy.Configure cons conf) = None)
  /\ (In (Errorf Base64Decode.msgDictionary) ferrors
      <-> dict <> "" /\ String.length dict <> 64%nat)
  /\ (forall msg, snd (FormatterBase_Configure (Base64Decode.base format) fconf) = Some msg ->
                  In (BaseError msg) ferrors)
  /\ (forall format' err,
        Base64Decode.Configure format fconf = Some (format', err) ->
        err = match ferrors with [] => None | _ :: _ => Some ferrors end)
  /\ (dict <> "" -> String.length dict <> 64%nat ->
      In (Errorf Base64Decode.msgDictionary) ferrors
      /\ Base64Decode.Configure format fconf = None)
  /\ (snd (FormatterBase_Configure (Base64Decode.base format) fconf) = None ->
      snd (GetString fconf "Dictionary" "") = None ->
      dict = "" \/ NewEncoding dict <> None ->
      exists format', Base64Decode.Configure format fconf = Some (format', None)).
Proof.
  cbv zeta.
  split; [rewrite Configure_eq; reflexivity|].
  split; [apply msgUDP_pushed|].
  split; [apply msgSize_pushed|].
  split; [rewrite msgUnknown_pushed; tauto|].
  split.
  { intros msg Hmsg. unfold Proxy.ConfigureErrors, ErrorStack.NewErrorStack.
    rewrite configure_run. cbn [snd]. rewrite Hmsg. cbn. tauto. }
  split.
  { intros Hbase (Ha & Hd & Ho & Hn & Hs) Hudp Hknown Hsize.
    rewrite Configure_eq. cbn [snd]. apply ErrorOrNil_nil.
    unfold Proxy.ConfigureErrors, ErrorStack.NewErrorStack.
    rewrite configure_run. cbn [snd].
    fold (Proxy.protocolOf conf). fold (Proxy.partitionerOf conf).
    rewrite Hbase, Ha, Hd, Ho, Hn. cbn [option_map option_list app].
    apply String.eqb_neq in Hudp. rewrite Hudp. cbn [app].
    by apply switchPartitioner_clean. }
  split; [apply Errorf_in_Base64Decode_errors|].
  split.
  { intros msg Hmsg. unfold Base64Decode.ConfigureErrors, ErrorStack.NewErrorStack.
    rewrite Base64Decode_configure_run. cbn [snd]. rewrite Hmsg. cbn. tauto. }
  split.
  { intros format' err Hreturn.
    by destruct (Base64Decode_Configure_returns format fconf format' err Hreturn) as [-> _]. }
  split.
  - intros Hne Hlen. split; [by apply Errorf_in_Base64Decode_errors|].
    apply Base64Decode_Configure_panics. split; [done|].
    destruct (NewEncoding _) as [encoding|] eqn:Hnew; [|done].
    by apply NewEncoding_alphabet in Hnew.
  - intros Hbase Hd Hdict.
    assert (Hclean : Base64Decode.ConfigureErrors format fconf = []).
    { unfold Base64Decode.ConfigureErrors, ErrorStack.NewErrorStack.
      rewrite Base64Decode_configure_run. cbn [snd].
      rewrite Hbase, Hd. cbn [option_map option_list app].
      destruct (String.eqb_spec (fst (GetString fconf "Dictionary" "")) "") as [|Hne];
        [reflexivity|].
      destruct Hdict as [|Hnew]; [done|].
      destruct (NewEncoding _) as [encoding|] eqn:Hsome; [|done].
      apply NewEncoding_alphabet in Hsome. by rewrite Hsome. }
    destruct (Base64Decode.Configure format fconf) as [[format' err]|] eqn:Hreturn.
    + exists format'.
      destruct (Base64Decode_Configure_returns format fconf format' err Hreturn) as [-> _].
      by rewrite Hclean.
    + apply Base64Decode_Configure_panics in Hreturn as [Hne Hnone].
      destruct Hdict as [|Hnew]; done.
Qed.

End ConfigureFacts.

(** ** consumer.Proxy: accept and Consume *)

Section LifecycleFacts.

Import Lifecycle.

Lemma run_app ls1 ls2 w :
  run (ls1 ++ ls2) w =
    match run ls1 w with
    | Some w' => run ls2 w'
    | None => None
    end.
Proof.
  revert w. induction ls1 as [|l ls1 IH]; intros w; cbn; [done|].
  destruct (step l w); [apply IH|done].
Qed.

Lemma run_snoc ls l w w' :
  run (ls ++ [l]) w = Some w' <->
  exists w0, run ls w = Some w0 /\ step l w0 = Some w'.
Proof.
  rewrite run_app. cbn. split.
  - destruct (run ls w) as [w0|]; [|done]. intros Hs. exists w0.
    by destruct (step l w0).
  - intros (w0 & -> & ->). done.
Qed.

(** Case analysis on one step: the world is split into its fields, the
    label and both program counters into their cases. *)
Ltac step_cases Hstep :=
  match type of Hstep with
  | step ?l ?w = Some _ =>
      destruct w as [act bur stp lr lis blog hs wk lg apc cpc];
      destruct l; cbn in Hstep;
      unfold Consume, accept, Accept, WaitOnFuse, ControlLoop, IsActive,
        AddMainWorker, WorkerDone in Hstep;
      cbn in Hstep;
      repeat match type of Hstep with
             | context [match ?x with _ => _ end] => is_var x; destruct x; cbn in Hstep
             end;
      try discriminate Hstep;
      try (injection Hstep as <-)
  end.

(** A step that is not one of the accept goroutine leaves it where it is,
    or starts it. *)
Lemma step_other_keeps_acceptAt l w w' :
  step l w = Some w' -> movesAccept l = false ->
  acceptAt w' = acceptAt w \/ acceptAt w' = AccAddMainWorker.
Proof.
  intros Hstep Hl. step_cases Hstep; cbn in *; try discriminate; tauto.
Qed.

(** The only way into the call of [Accept] is out of [WaitOnFuse], and
    [WaitOnFuse] lets through only while the fuse is clear. *)
Lemma step_into_CallAccept l w w' :
  step l w = Some w' -> acceptAt w' = AccCallAccept -> acceptAt w <> AccCallAccept ->
  l = RunAccept /\ acceptAt w = AccWaitOnFuse /\ burned w = false.
Proof.
  intros Hstep Hpc Hnot. step_cases Hstep; cbn in *; try discriminate; try tauto.
Qed.

Lemma run_invariant (P : world -> Prop) :
  (forall l w w', P w -> step l w = Some w' -> P w') ->
  forall ls w w', P w -> run ls w = Some w' -> P w'.
Proof.
  intros Hstep ls. induction ls as [|l ls IH]; intros w w' Hw Hrun; cbn in Hrun.
  - by injection Hrun as <-.
  - destruct (step l w) as [w1|] eqn:E; [|done]. eapply IH; [|exact Hrun]. eauto.
Qed.

Lemma step_keeps_CallAccept l w w' :
  step l w = Some w' -> acceptAt w = AccCallAccept -> acceptAt w' = AccCallAccept ->
  movesAccept l = false.
Proof.
  intros Hstep Hpc Hpc'. step_cases Hstep; cbn in *; try discriminate; reflexivity.
Qed.

(** Whenever the goroutine stands before the call of [Accept], its last move
    was a [WaitOnFuse] that found the fuse clear. *)
Lemma CallAccept_after_clear_wait w0 ls w :
  acceptAt w0 <> AccCallAccept ->
  run ls w0 = Some w -> acceptAt w = AccCallAccept ->
  exists ls1 ls2 w1,
    ls = (ls1 ++ RunAccept :: ls2)%list
    /\ run ls1 w0 = Some w1
    /\ acceptAt w1 = AccWaitOnFuse /\ burned w1 = false
    /\ Forall (fun l => movesAccept l = false) ls2.
Proof.
  intros Hstart. revert w. induction ls as [|l ls IH] using rev_ind; intros w Hrun Hpc.
  - cbn in Hrun. injection Hrun as <-. done.
  - apply run_snoc in Hrun as (wp & Hrun & Hstep).
    destruct (acceptAt wp) eqn:Epc;
      try (destruct (step_into_CallAccept _ _ _ Hstep Hpc) as (-> & Hwait & Hclear);
           [congruence|];
           exists ls, [], wp; repeat split; [done|congruence|done|constructor]).
    destruct (IH wp Hrun Epc) as (ls1 & ls2 & w1 & -> & Hrun1 & Hwait & Hclear & Hothers).
    exists ls1, (ls2 ++ [l])%list, w1. repeat split; try done.
    + by rewrite <- app_assoc.
    + apply Forall_app. split; [done|]. constructor; [|constructor].
      by eapply step_keeps_CallAccept.
Qed.

(** C1 (as amended): in every run, whenever the goroutine is about to call
    [Accept], its previous statement was a [WaitOnFuse] that returned with the
    fuse clear; [WaitOnFuse] is one statement that blocks while the fuse is
    burned and lets through at once when it is clear; and the call of
    [Accept] follows without a further look at the fuse. *)
Theorem accept_waits_on_fuse_first listenResult0 burned0 ls w :
  run ls (start listenResult0 burned0) = Some w ->
  (acceptAt w = AccCallAccept ->
   exists ls1 ls2 w1,
     ls = (ls1 ++ RunAccept :: ls2)%list
     /\ run ls1 (start listenResult0 burned0) = Some w1
     /\ acceptAt w1 = AccWaitOnFuse /\ burned w1 = false
     /\ Forall (fun l => movesAccept l = false) ls2)
  /\ (acceptAt w = AccWaitOnFuse ->
      accept w = if burned w then None else Some (acceptGoto AccCallAccept w))
  /\ (acceptAt w = AccCallAccept -> accept w = Some (acceptGoto AccInAccept w)).
Proof.
  intros Hrun. repeat split.
  - intros Hpc. by eapply CallAccept_after_clear_wait.
  - intros Hpc. unfold accept, WaitOnFuse. rewrite Hpc. by destruct (burned w).
  - intros Hpc. unfold accept. by rewrite Hpc.
Qed.

(** C1, the claim as stated fails: the fuse can be burned after [WaitOnFuse]
    has returned, and [Accept] is then called while the fuse is burned. *)
Lemma accept_called_while_burned :
  exists w w',
    run [RunConsume; RunConsume; RunAccept; RunAccept; RunAccept; Burn]
      (start None false) = Some w
    /\ acceptAt w = AccCallAccept /\ burned w = true
    /\ accept w = Some w' /\ acceptAt w' = AccInAccept /\ burned w' = true.
Proof.
  eexists _, _. split; [vm_compute; reflexivity|].
  cbn. by repeat split.
Qed.

Lemma step_consistent l w w' : consistent w -> step l w = Some w' -> consistent w'.
Proof.
  intros Hw Hstep. unfold consistent in *.
  destruct Hw as [Hwk Hpcs].
  step_cases Hstep; cbn in *.
  all: try match goal with cpc : consume_pc |- _ => destruct cpc end.
  all: try match goal with apc : accept_pc |- _ => destruct apc end.
  all: cbn in *.
  all: try (exfalso; clear Hwk; intuition congruence; fail).
  all: split; [try lia|].
  all: try tauto.
  all: intuition congruence.
Qed.

Lemma run_consistent listenResult0 burned0 ls w :
  run ls (start listenResult0 burned0) = Some w -> consistent w.
Proof.
  apply (run_invariant consistent).
  - intros l w0 w1. apply step_consistent.
  - unfold consistent. cbn. done.
Qed.

Lemma step_keeps_listenResult l w w' :
  step l w = Some w' -> listenResult w' = listenResult w.
Proof. intros Hstep. step_cases Hstep; reflexivity. Qed.

Lemma run_keeps_listenResult ls w w' :
  run ls w = Some w' -> listenResult w' = listenResult w.
Proof.
  intros Hrun.
  apply (run_invariant (fun w1 => listenResult w1 = listenResult w) ) with (ls := ls) (w := w);
    [|done|done].
  intros l w0 w1 H0 Hstep. by rewrite (step_keeps_listenResult _ _ _ Hstep).
Qed.

(** C2 (as amended): after a successful bind [Consume] blocks in the control
    loop until shutdown is requested, then marks the consumer inactive, closes
    the listener and returns; in every run it has returned only with the
    listener closed.  A closed listener makes a pending [Accept] fail, and the
    workers wait group counts the accept goroutine exactly while it is
    registered; [Consume] itself does not wait for it. *)
Theorem Consume_closes_listener_before_return burned0 ls w :
  run ls (start None burned0) = Some w ->
  (consumeAt w = ConReturned -> listen w = ListenClosed)
  /\ (consumeAt w = ConControlLoop -> stopRequested w = false -> Consume w = None)
  /\ (consumeAt w = ConControlLoop -> stopRequested w = true ->
      exists w1 w2,
        Consume w = Some w1 /\ consumeAt w1 = ConClose /\ active w1 = false
        /\ Consume w1 = Some w2 /\ consumeAt w2 = ConReturned
        /\ listen w2 = ListenClosed)
  /\ (acceptAt w = AccInAccept -> listen w = ListenClosed ->
      accept w = Some (acceptGoto (AccFailed errClosed) w))
  /\ (workers w = (if registered (acceptAt w) then 1 else 0)%Z).
Proof.
  intros Hrun.
  pose proof (run_consistent _ _ _ _ Hrun) as [Hworkers Hpcs].
  pose proof (run_keeps_listenResult _ _ _ Hrun) as Hlr. cbn in Hlr.
  repeat split.
  - intros Hret. rewrite Hret in Hpcs. destruct Hpcs as [(? & _)|(_ & _ & ?)]; [done|].
    congruence.
  - intros Hcl Hstop. unfold Consume, ControlLoop. by rewrite Hcl, Hstop.
  - intros Hcl Hstop.
    exists (consumeGoto ConClose (setActive false w)),
           (consumeGoto ConReturned
              (setListen ListenClosed (consumeGoto ConClose (setActive false w)))).
    unfold Consume at 1, ControlLoop. rewrite Hcl, Hstop. by repeat split.
  - intros Hpc Hclosed. unfold accept, Accept. by rewrite Hpc, Hclosed.
  - exact Hworkers.
Qed.

(** C2, the claim as stated fails: [Consume] has returned and the listener
    is closed, while the accept goroutine is still inside [Accept] and still
    registered with the wait group. *)
Lemma Consume_returns_before_accept_ends :
  exists w,
    run [RunConsume; RunConsume; RunAccept; RunAccept; RunAccept; RunAccept;
         Stop; RunConsume; RunConsume]
      (start None false) = Some w
    /\ consumeAt w = ConReturned /\ listen w = ListenClosed
    /\ acceptAt w = AccInAccept /\ acceptAt w <> AccFinished /\ workers w = 1%Z.
Proof.
  eexists. split; [vm_compute; reflexivity|].
  cbn. repeat split; discriminate.
Qed.

(** Once the goroutine has left the loop it stays out of it, and nobody else
    hands connections to handlers. *)
Lemma step_after_loop l w w' :
  consistent w ->
  acceptAt w = AccWorkerDone \/ acceptAt w = AccFinished ->
  step l w = Some w' ->
  (acceptAt w' = AccWorkerDone \/ acceptAt w' = AccFinished)
  /\ handlers w' = handlers w.
Proof.
  intros [_ Hpcs] Hout Hstep.
  step_cases Hstep; cbn in *; try tauto; try (exfalso; intuition congruence).
Qed.

Lemma run_after_loop ls w w' :
  consistent w ->
  acceptAt w = AccWorkerDone \/ acceptAt w = AccFinished ->
  run ls w = Some w' ->
  (acceptAt w' = AccWorkerDone \/ acceptAt w' = AccFinished)
  /\ handlers w' = handlers w.
Proof.
  intros Hc Hout Hrun.
  assert (Hinv : consistent w'
                 /\ (acceptAt w' = AccWorkerDone \/ acceptAt w' = AccFinished)
                 /\ handlers w' = handlers w); [|tauto].
  apply (run_invariant
           (fun w1 => consistent w1
                      /\ (acceptAt w1 = AccWorkerDone \/ acceptAt w1 = AccFinished)
                      /\ handlers w1 = handlers w)) with (ls := ls) (w := w);
    [|done|done].
  intros l w0 w1 (Hc0 & Hout0 & Hh0) Hstep.
  destruct (step_after_loop _ _ _ Hc0 Hout0 Hstep) as [Hout1 Hh1].
  split; [by eapply step_consistent|]. split; [done|congruence].
Qed.

(** C7: where [Accept] has returned an error, the next statement of the
    goroutine logs it exactly when the consumer is still active and leaves
    the loop either way; the handlers stay as they are, and from then on the
    goroutine never accepts again, whatever else happens. *)
Theorem accept_error_logged_iff_active listenResult0 burned0 ls w err :
  run ls (start listenResult0 burned0) = Some w ->
  acceptAt w = AccFailed err ->
  exists w',
    accept w = Some w'
    /\ log w' = (if IsActive w
                 then (log w ++ [LogError "Proxy listen failed: " err])%list
                 else log w)
    /\ acceptAt w' = AccWorkerDone
    /\ handlers w' = handlers w
    /\ forall ls' w'',
         run ls' w' = Some w'' ->
         (acceptAt w'' = AccWorkerDone \/ acceptAt w'' = AccFinished)
         /\ handlers w'' = handlers w.
Proof.
  intros Hrun Hpc.
  pose proof (run_consistent _ _ _ _ Hrun) as Hc.
  set (w' := if active w
             then acceptGoto AccWorkerDone (logError "Proxy listen failed: " err w)
             else acceptGoto AccWorkerDone w).
  assert (Hstep : accept w = Some w').
  { unfold accept, IsActive, w'. rewrite Hpc. by destruct (active w). }
  assert (Hout : acceptAt w' = AccWorkerDone) by (unfold w'; by destruct (active w)).
  assert (Hh : handlers w' = handlers w) by (unfold w'; by destruct (active w)).
  assert (Hc' : consistent w') by (by apply (step_consistent RunAccept w)).
  exists w'. repeat split; try done.
  - unfold w', IsActive. by destruct (active w).
  - by destruct (run_after_loop _ _ _ Hc' (or_introl Hout) H).
  - destruct (run_after_loop _ _ _ Hc' (or_introl Hout) H) as [_ Hh']. congruence.
Qed.

(** After a failed bind nothing but the log changes. *)
Lemma step_bind_failed err l w w' :
  listenResult w = Some err -> acceptAt w = AccNotStarted -> listen w = ListenNil ->
  consumeAt w = ConListen \/ consumeAt w = ConReturned ->
  step l w = Some w' ->
  acceptAt w' = AccNotStarted /\ listen w' = ListenNil
  /\ handlers w' = handlers w /\ workers w' = workers w
  /\ listenResult w' = Some err
  /\ ((consumeAt w' = consumeAt w /\ log w' = log w)
      \/ (consumeAt w = ConListen /\ consumeAt w' = ConReturned
          /\ log w' = (log w ++ [LogError "Proxy connection error: " err])%list)).
Proof.
  intros Hlr Hpc Hlis Hcon Hstep.
  step_cases Hstep; cbn in *; try discriminate;
    try (destruct Hcon; discriminate);
    try (injection Hlr as ->); tauto.
Qed.

(** C8: when the bind fails, [Consume] logs the error and returns with its
    first statement; in every run the goroutine of [accept] is never started,
    the control loop is never entered, nothing is bound, no handler exists
    and the wait group stays empty.  [Consume] returns to its caller like any
    other function. *)
Theorem Consume_bind_failure err burned0 ls w :
  run ls (start (Some err) burned0) = Some w ->
  acceptAt w = AccNotStarted /\ listen w = ListenNil
  /\ handlers w = [] /\ workers w = 0%Z
  /\ ((consumeAt w = ConListen /\ log w = []
       /\ exists w', Consume w = Some w' /\ consumeAt w' = ConReturned
                     /\ log w' = [LogError "Proxy connection error: " err]
                     /\ acceptAt w' = AccNotStarted)
      \/ (consumeAt w = ConReturned
          /\ log w = [LogError "Proxy connection error: " err])).
Proof.
  intros Hrun.
  assert (Hinv : listenResult w = Some err /\ acceptAt w = AccNotStarted
                 /\ listen w = ListenNil /\ handlers w = [] /\ workers w = 0%Z
                 /\ ((consumeAt w = ConListen /\ log w = [])
                     \/ (consumeAt w = ConReturned
                         /\ log w = [LogError "Proxy connection error: " err]))).
  { apply (run_invariant
             (fun w1 => listenResult w1 = Some err /\ acceptAt w1 = AccNotStarted
                 /\ listen w1 = ListenNil /\ handlers w1 = [] /\ workers w1 = 0%Z
                 /\ ((consumeAt w1 = ConListen /\ log w1 = [])
                     \/ (consumeAt w1 = ConReturned
                         /\ log w1 = [LogError "Proxy connection error: " err]))))
      with (ls := ls) (w := start (Some err) burned0); [|cbn; tauto|done].
    intros l w0 w1 (Hlr & Hpc & Hlis & Hh & Hwk & Hcon) Hstep.
    assert (Hcon' : consumeAt w0 = ConListen \/ consumeAt w0 = ConReturned) by tauto.
    destruct (step_bind_failed _ _ _ _ Hlr Hpc Hlis Hcon' Hstep)
      as (Hpc1 & Hlis1 & Hh1 & Hwk1 & Hlr1 & Hmove).
    repeat split; try congruence.
    destruct Hmove as [[Hsame Hlog]|(Hfrom & Hto & Hlog)].
    - rewrite Hsame, Hlog. exact Hcon.
    - right. split; [done|]. rewrite Hlog.
      destruct Hcon as [[_ ->]|[Hret _]]; [done|congruence]. }
  destruct Hinv as (Hlr & Hpc & Hlis & Hh & Hwk & Hcon).
  repeat split; try done.
  destruct Hcon as [[Hat Hlog]|Hret]; [left|by right].
  repeat split; try done.
  exists (consumeGoto ConReturned (logError "Proxy connection error: " err w)).
  unfold Consume. rewrite Hat, Hlr. cbn. rewrite Hlog. by repeat split.
Qed.

End LifecycleFacts.

(** ** consumer.Proxy: more about Configure *)

Section ProxyConfigureMore.

Context `{ProxyImports}.

Import Proxy.

Lemma switchSize_insert_ne conf key v flags :
  key <> "Size" -> switchSize (<[key := v]> conf) flags = switchSize conf flags.
Proof. intros Hne. unfold switchSize. by rewrite GetInt_insert_ne. Qed.

Lemma switchPartitioner_insert_ne conf key v partitioner flags offset :
  key <> "Size" ->
  switchPartitioner (<[key := v]> conf) partitioner flags offset
  = switchPartitioner conf partitioner flags offset.
Proof.
  intros Hne. unfold switchPartitioner.
  by rewrite !switchSize_insert_ne, !GetInt_insert_ne.
Qed.

(** What the switch leaves in [offset] and on the stack, by the kind of the
    name. *)
Lemma switchPartitioner_cases conf partitioner flags offset :
  let sw := switchPartitioner conf partitioner flags offset [] in
  (In partitioner binaryNames /\ snd (fst sw) = offset
   /\ snd sw = (option_list (snd (GetInt conf "Size" 4))
                ++ if bool_decide (In (fst (GetInt conf "Size" 4)) binarySizes)
                   then [] else [Errorf msgSize])%list)
  \/ (partitioner = "fixed" /\ sw = ((Z.lor flags BufferedReaderFlagMLEFixed,
                                        fst (GetInt conf "Size" 1)),
                                      option_list (snd (GetInt conf "Size" 1))))
  \/ (partitioner = "ascii" /\ sw = ((Z.lor flags BufferedReaderFlagMLE, offset), []))
  \/ (partitioner = "delimiter" /\ sw = ((flags, offset), []))
  \/ (~ In partitioner partitionerNames
      /\ sw = ((flags, offset), [Errorf (msgUnknown partitioner)])).
Proof.
  cbv zeta.
  destruct (in_dec string_dec partitioner partitionerNames) as [Hin|Hno].
  - unfold partitionerNames in Hin. cbn [In] in Hin.
    destruct Hin as [<-|[<-|[Hk|[Hk|[Hk|[<-|[]]]]]]].
    + right. right. right. left. by rewrite switchPartitioner_delimiter.
    + right. right. left. by rewrite switchPartitioner_ascii.
    + left. assert (Hb : In partitioner binaryNames) by (rewrite <- Hk; cbn; tauto).
      rewrite (switchPartitioner_binary _ _ _ _ Hb). cbv zeta. cbn [fst snd].
      rewrite switchSize_run. cbv zeta. cbn [snd]. repeat split; [done|].
      f_equal. pose proof (binarySizes_test (fst (GetInt conf "Size" 4))) as Ht.
      destruct (_ || _ || _ || _); case_bool_decide; try done; intuition discriminate.
    + left. assert (Hb : In partitioner binaryNames) by (rewrite <- Hk; cbn; tauto).
      rewrite (switchPartitioner_binary _ _ _ _ Hb). cbv zeta. cbn [fst snd].
      rewrite switchSize_run. cbv zeta. cbn [snd]. repeat split; [done|].
      f_equal. pose proof (binarySizes_test (fst (GetInt conf "Size" 4))) as Ht.
      destruct (_ || _ || _ || _); case_bool_decide; try done; intuition discriminate.
    + left. assert (Hb : In partitioner binaryNames) by (rewrite <- Hk; cbn; tauto).
      rewrite (switchPartitioner_binary _ _ _ _ Hb). cbv zeta. cbn [fst snd].
      rewrite switchSize_run. cbv zeta. cbn [snd]. repeat split; [done|].
      f_equal. pose proof (binarySizes_test (fst (GetInt conf "Size" 4))) as Ht.
      destruct (_ || _ || _ || _); case_bool_decide; try done; intuition discriminate.
    + right. left. by rewrite switchPartitioner_fixed.
  - right. right. right. right. by rewrite switchPartitioner_unknown.
Qed.

(** X1: every partitioner name but "fixed", known or not, leaves the
    configured [Offset] (0 when absent) in the offset field. *)
Theorem Configure_keeps_offset_unless_fixed cons conf :
  partitionerOf conf <> "fixed" ->
  offset (fst (Configure cons conf)) = fst (GetInt conf "Offset" 0)
  /\ (conf !! "Offset" = None -> offset (fst (Configure cons conf)) = 0%Z)
  /\ (forall n, conf !! "Offset" = Some (VInt n) ->
                offset (fst (Configure cons conf)) = n).
Proof.
  intros Hnot.
  assert (Hoff : offset (fst (Configure cons conf)) = fst (GetInt conf "Offset" 0)).
  { destruct (Configure_switch_fields cons conf) as [_ ->].
    destruct (switchPartitioner_cases conf (partitionerOf conf)
                BufferedReaderFlagEverything (fst (GetInt conf "Offset" 0)))
      as [(_ & Ho & _)|[[Hp _]|[[_ ->]|[[_ ->]|[_ ->]]]]]; done. }
  repeat split; [done| |].
  - intros Hnone. rewrite Hoff. unfold GetInt. by rewrite Hnone.
  - intros n Hn. rewrite Hoff. unfold GetInt. by rewrite Hn.
Qed.

(** X2: the two text kinds read no [Size]: "ascii" adds the ASCII
    length-field flag, "delimiter" adds nothing, whatever [Size] holds, and
    neither pushes an error of its own. *)
Theorem Configure_text_kinds cons conf :
  partitionerOf conf = "ascii" \/ partitionerOf conf = "delimiter" ->
  flags (fst (Configure cons conf))
  = (if String.eqb (partitionerOf conf) "ascii"
     then Z.lor BufferedReaderFlagEverything BufferedReaderFlagMLE
     else BufferedReaderFlagEverything)
  /\ (forall msg, In (Errorf msg) (ConfigureErrors cons conf) ->
                  msg = msgUDP /\ protocolOf conf = "udp")
  /\ (forall v,
        flags (fst (Configure cons (<["Size" := v]> conf)))
        = flags (fst (Configure cons conf))
        /\ offset (fst (Configure cons (<["Size" := v]> conf)))
           = offset (fst (Configure cons conf))).
Proof.
  intros Hkind.
  assert (Hsw : forall conf0, partitionerOf conf0 = partitionerOf conf ->
            flags (fst (Configure cons conf0))
            = (if String.eqb (partitionerOf conf) "ascii"
               then Z.lor BufferedReaderFlagEverything BufferedReaderFlagMLE
               else BufferedReaderFlagEverything)
            /\ offset (fst (Configure cons conf0)) = fst (GetInt conf0 "Offset" 0)).
  { intros conf0 Hp0. destruct (Configure_switch_fields cons conf0) as [-> ->].
    rewrite Hp0.
    destruct Hkind as [-> | ->].
    - by rewrite switchPartitioner_ascii.
    - by rewrite switchPartitioner_delimiter. }
  split; [by apply Hsw|]. split.
  - intros msg Hin. apply Errorf_in_ConfigureErrors in Hin.
    destruct Hin as [[? ->]|Hin]; [done|].
    apply Errorf_in_switch in Hin.
    destruct Hin as [(Hb & _)|[Hn _]]; exfalso.
    + unfold binaryNames in Hb. cbn [In] in Hb.
      destruct Hkind as [Hk|Hk]; rewrite Hk in Hb; intuition discriminate.
    + apply Hn. unfold partitionerNames. cbn [In].
      destruct Hkind as [-> | ->]; tauto.
  - intros v.
    assert (Hp : partitionerOf (<["Size" := v]> conf) = partitionerOf conf).
    { unfold partitionerOf. by rewrite GetString_insert_ne. }
    destruct (Hsw _ Hp) as [-> ->]. destruct (Hsw conf eq_refl) as [-> ->].
    by rewrite GetInt_insert_ne.
Qed.

(** X3: [Configure] reads none of the consumer's previous settings: two
    consumers with the same base and listener are configured alike, so flags
    and offset of an earlier configuration never leak into a later one. *)
Theorem Configure_overwrites_fields cons1 cons2 conf :
  base cons1 = base cons2 -> listen cons1 = listen cons2 ->
  Configure cons1 conf = Configure cons2 conf.
Proof.
  intros Hbase Hlisten. rewrite !Configure_eq.
  unfold ConfigureErrors, ErrorStack.NewErrorStack.
  rewrite !configure_run. cbn [fst snd]. by rewrite Hbase, Hlisten.
Qed.

(** X4: the error stack of [Configure] in full.  The errors stand in the
    order of the source: the error of the base, of [Address], the UDP error,
    the errors of [Delimiter], [Offset] and [Partitioner], and last what the
    switch pushes: for a binary kind the error of [Size] and the size error,
    for "fixed" the error of [Size], for the text kinds nothing, and for any
    other name the unknown-partitioner error. *)
Theorem Configure_error_order cons conf :
  ConfigureErrors cons conf =
    (option_list (option_map BaseError (snd (ConsumerBase_Configure (base cons) conf)))
     ++ option_list (snd (GetString conf "Address" ":5880"))
     ++ (if String.eqb (protocolOf conf) "udp" then [Errorf msgUDP] else [])
     ++ option_list (snd (GetString conf "Delimiter" (String (ascii_of_nat 10) "")))
     ++ option_list (snd (GetInt conf "Offset" 0))
     ++ option_list (snd (GetString conf "Partitioner" "delimiter"))
     ++ (if bool_decide (In (partitionerOf conf) binaryNames) then
           option_list (snd (GetInt conf "Size" 4))
           ++ (if bool_decide (In (fst (GetInt conf "Size" 4)) binarySizes)
               then [] else [Errorf msgSize])
         else if String.eqb (partitionerOf conf) "fixed" then
           option_list (snd (GetInt conf "Size" 1))
         else if bool_decide (In (partitionerOf conf) partitionerNames) then []
         else [Errorf (msgUnknown (partitionerOf conf))]))%list.
Proof.
  unfold ConfigureErrors, ErrorStack.NewErrorStack. rewrite configure_run. cbn [snd].
  fold (protocolOf conf). fold (partitionerOf conf).
  do 6 f_equal.
  assert (Hnb : forall p, In p ["fixed"; "ascii"; "delimiter"] -> ~ In p binaryNames).
  { intros p Hp Hb. unfold binaryNames in Hb. cbn [In] in *.
    destruct Hp as [<-|[<-|[<-|[]]]]; intuition discriminate. }
  destruct (switchPartitioner_cases conf (partitionerOf conf)
              BufferedReaderFlagEverything (fst (GetInt conf "Offset" 0)))
    as [(Hb & _ & ->)|[[Hp ->]|[[Hp ->]|[[Hp ->]|[Hno ->]]]]].
  - by rewrite (bool_decide_eq_true_2 _ Hb).
  - rewrite Hp. cbn [snd].
    rewrite (bool_decide_eq_false_2 _ (Hnb "fixed" (or_introl eq_refl))).
    reflexivity.
  - rewrite Hp. cbn [snd].
    rewrite (bool_decide_eq_false_2 _ (Hnb "ascii" (or_intror (or_introl eq_refl)))).
    cbn [String.eqb Ascii.eqb Bool.eqb].
    by rewrite (bool_decide_eq_true_2 (In "ascii" partitionerNames)) by (cbn; tauto).
  - rewrite Hp. cbn [snd].
    rewrite (bool_decide_eq_false_2 _ (Hnb "delimiter" (or_intror (or_intror (or_introl eq_refl))))).
    cbn [String.eqb Ascii.eqb Bool.eqb].
    by rewrite (bool_decide_eq_true_2 (In "delimiter" partitionerNames)) by (cbn; tauto).
  - cbn [snd].
    assert (Hb : ~ In (partitionerOf conf) binaryNames).
    { intros Hb. apply Hno. unfold binaryNames, partitionerNames in *.
      cbn [In] in *. tauto. }
    assert (Hnf : String.eqb (partitionerOf conf) "fixed" = false).
    { apply String.eqb_neq. intros Heq. apply Hno. rewrite Heq. cbn. tauto. }
    by rewrite (bool_decide_eq_false_2 _ Hb), Hnf, (bool_decide_eq_false_2 _ Hno).
Qed.

(** X5: an option that [Configure] does not read has no influence on the
    settings it stores nor on the errors it creates itself. *)
Theorem Configure_ignores_other_options cons conf key v :
  ~ In key ["Address"; "Delimiter"; "Offset"; "Partitioner"; "Size"] ->
  let cons0 := fst (Configure cons conf) in
  let cons' := fst (Configure cons (<[key := v]> conf)) in
  protocol cons' = protocol cons0 /\ address cons' = address cons0
  /\ flags cons' = flags cons0 /\ delimiter cons' = delimiter cons0
  /\ offset cons' = offset cons0
  /\ forall msg, In (Errorf msg) (ConfigureErrors cons (<[key := v]> conf))
                 <-> In (Errorf msg) (ConfigureErrors cons conf).
Proof.
  intros Hkey. cbn [In] in Hkey. cbv zeta.
  assert (Ha : key <> "Address") by (intros ->; apply Hkey; tauto). assert (Hd : key <> "Delimiter") by (intros ->; apply Hkey; tauto).
  assert (Ho : key <> "Offset") by (intros ->; apply Hkey; tauto). assert (Hp : key <> "Partitioner") by (intros ->; apply Hkey; tauto).
  assert (Hs : key <> "Size") by (intros ->; apply Hkey; tauto).
  rewrite !Configure_eq. cbn [fst]. rewrite !configure_run.
  cbn [fst snd protocol address flags delimiter offset].
  rewrite !GetString_insert_ne, !GetInt_insert_ne, !switchPartitioner_insert_ne by done.
  repeat split; try done;
    rewrite !Errorf_in_ConfigureErrors; unfold protocolOf, partitionerOf;
    rewrite ?GetString_insert_ne, ?GetInt_insert_ne, ?switchPartitioner_insert_ne by done;
    tauto.
Qed.

End ProxyConfigureMore.

(** ** consumer.Proxy: more about accept and Consume *)

Section LifecycleMore.

Import Lifecycle.

Ltac step_cases Hstep :=
  match type of Hstep with
  | step ?l ?w = Some _ =>
      destruct w as [act bur stp lr lis blog hs wk lg apc cpc];
      destruct l; cbn in Hstep;
      unfold Consume, accept, Accept, WaitOnFuse, ControlLoop, IsActive,
        AddMainWorker, WorkerDone in Hstep;
      cbn in Hstep;
      repeat match type of Hstep with
             | context [match ?x with _ => _ end] => is_var x; destruct x; cbn in Hstep
             end;
      try discriminate Hstep;
      try (injection Hstep as <-)
  end.

Lemma step_handoff l w w' :
  consistent w -> step l w = Some w' ->
  (handlers w' ++ inHand (acceptAt w') ++ backlog w')%list
  = ((handlers w ++ inHand (acceptAt w) ++ backlog w) ++ connected [l])%list.
Proof.
  intros [_ Hpcs] Hstep.
  step_cases Hstep; cbn in *; rewrite ?app_nil_r, <- ?app_assoc; try done.
  all: destruct Hpcs as (_ & -> & _); done.
Qed.

Lemma connected_app ls1 ls2 : connected (ls1 ++ ls2) = (connected ls1 ++ connected ls2)%list.
Proof. unfold connected. apply flat_map_app. Qed.

(** X6: the connections given to handlers, the one in the hand of the accept
    goroutine and those still waiting in the listener are, in this order,
    exactly the peers that connected, in the order in which they did: every
    accepted connection gets one handler, none is dropped, duplicated or
    overtaken. *)
Theorem accept_hands_over_in_order listenResult0 burned0 ls w :
  run ls (start listenResult0 burned0) = Some w ->
  (handlers w ++ inHand (acceptAt w) ++ backlog w)%list = connected ls.
Proof.
  revert w. induction ls as [|l ls IH] using rev_ind; intros w Hrun.
  - cbn in Hrun. by injection Hrun as <-.
  - apply run_snoc in Hrun as (w0 & Hrun & Hstep).
    rewrite (step_handoff l w0 w (run_consistent _ _ _ _ Hrun) Hstep).
    by rewrite (IH w0 Hrun), connected_app.
Qed.

(** After shutdown the consumer is inactive. *)
Lemma step_inactive_after_shutdown l w w' :
  (consumeAt w = ConClose \/ (consumeAt w = ConReturned /\ listenResult w = None) ->
   active w = false) ->
  step l w = Some w' ->
  (consumeAt w' = ConClose \/ (consumeAt w' = ConReturned /\ listenResult w' = None) ->
   active w' = false).
Proof.
  intros Hw Hstep.
  step_cases Hstep; cbn in *; try done; intuition congruence.
Qed.

Lemma run_inactive_after_shutdown listenResult0 burned0 ls w :
  run ls (start listenResult0 burned0) = Some w ->
  consumeAt w = ConClose \/ (consumeAt w = ConReturned /\ listenResult w = None) ->
  active w = false.
Proof.
  apply (run_invariant
           (fun w1 => consumeAt w1 = ConClose
                      \/ (consumeAt w1 = ConReturned /\ listenResult w1 = None) ->
                      active w1 = false)).
  - intros l w0 w1. apply step_inactive_after_shutdown.
  - cbn. intros [?|[? _]]; discriminate.
Qed.

(** X7: once [Consume] has returned after a successful bind, the accept
    goroutine needs at most five statements of its own to end, provided the
    fuse is clear: it starts a handler for a connection it already holds,
    accepts and logs nothing more, and leaves the wait group empty. *)
Theorem accept_ends_after_shutdown burned0 ls w :
  run ls (start None burned0) = Some w ->
  consumeAt w = ConReturned -> burned w = false ->
  exists w',
    run (repeat RunAccept (stepsToEnd (acceptAt w))) w = Some w'
    /\ (stepsToEnd (acceptAt w) <= 5)%nat
    /\ acceptAt w' = AccFinished /\ workers w' = 0%Z
    /\ handlers w' = (handlers w ++ inHand (acceptAt w))%list
    /\ log w' = log w /\ backlog w' = backlog w.
Proof.
  intros Hrun Hret Hclear.
  pose proof (run_consistent _ _ _ _ Hrun) as [Hworkers Hpcs].
  pose proof (run_keeps_listenResult _ _ _ Hrun) as Hlr. cbn in Hlr.
  pose proof (run_inactive_after_shutdown _ _ _ _ Hrun (or_intror (conj Hret Hlr)))
    as Hinactive.
  rewrite Hret in Hpcs. destruct Hpcs as [(Hclosed & Hstarted & _)|(_ & _ & ?)]; [|done].
  destruct w as [act bur stp lr lis blog hs wk lg apc cpc]. cbn in *. subst.
  destruct apc; cbn in *; try done;
    (eexists; split; [reflexivity|]; cbn; rewrite ?app_nil_r; repeat split; lia).
Qed.

(** X8: a goroutine that waits on a burned fuse stays there until the fuse
    is cleared: neither the shutdown request nor the closing of the listener
    nor a new peer moves it, so it remains in the wait group. *)
Theorem accept_stays_blocked_while_burned listenResult0 burned0 ls0 w ls w' :
  run ls0 (start listenResult0 burned0) = Some w ->
  acceptAt w = AccWaitOnFuse -> burned w = true ->
  Forall (fun l => l <> Clear) ls ->
  run ls w = Some w' ->
  acceptAt w' = AccWaitOnFuse /\ burned w' = true
  /\ workers w' = 1%Z /\ handlers w' = handlers w.
Proof.
  intros Hrun0 Hwait Hburned Hnoclear Hrun.
  pose proof (run_consistent _ _ _ _ Hrun0) as Hc.
  assert (Hinv : consistent w' /\ acceptAt w' = AccWaitOnFuse /\ burned w' = true
                 /\ handlers w' = handlers w).
  { clear Hrun0. revert w w' Hc Hwait Hburned Hrun.
    induction Hnoclear as [|l ls Hl _ IH]; intros w w' Hc Hwait Hburned Hrun; cbn in Hrun.
    - by injection Hrun as <-.
    - destruct (step l w) as [w1|] eqn:Hstep; [|done].
      assert (H1 : consistent w1 /\ acceptAt w1 = AccWaitOnFuse /\ burned w1 = true
                   /\ handlers w1 = handlers w).
      { split; [by eapply step_consistent|].
        destruct Hc as [_ Hpcs].
        step_cases Hstep; cbn in *; try done; intuition congruence. }
      destruct H1 as (Hc1 & Hwait1 & Hburned1 & Hh1).
      destruct (IH w1 w' Hc1 Hwait1 Hburned1 Hrun) as (Hc' & Hwait' & Hburned' & Hh').
      split; [done|]. split; [done|]. split; [done|]. congruence. }
  destruct Hinv as ([Hworkers _] & Hwait' & Hburned' & Hh).
  repeat split; try done. by rewrite Hworkers, Hwait'.
Qed.

(** What the error log can hold. *)
Lemma step_log l w w' :
  consistent w ->
  (log w = []
   \/ (exists err, listenResult w = Some err /\ consumeAt w = ConReturned
                   /\ log w = [LogError "Proxy connection error: " err])
   \/ (exists err, listenResult w = None
                   /\ log w = [LogError "Proxy listen failed: " err]
                   /\ (acceptAt w = AccWorkerDone \/ acceptAt w = AccFinished))) ->
  step l w = Some w' ->
  (log w' = []
   \/ (exists err, listenResult w' = Some err /\ consumeAt w' = ConReturned
                   /\ log w' = [LogError "Proxy connection error: " err])
   \/ (exists err, listenResult w' = None
                   /\ log w' = [LogError "Proxy listen failed: " err]
                   /\ (acceptAt w' = AccWorkerDone \/ acceptAt w' = AccFinished))).
Proof.
  intros [_ Hpcs] Hlog Hstep.
  step_cases Hstep; cbn in *; try (exact Hlog);
    destruct Hlog as [Hnil|[(e0 & Hs & Hr & Hl)|(e0 & Hn & Hl & Hout)]];
    subst; cbn in *;
    try (exfalso; intuition congruence; fail);
    first [ by left
          | by (right; left; eexists; repeat split)
          | by (right; right; eexists; repeat split; eauto)
          | idtac ].
  right. right. exists err. destruct cpc; intuition congruence.
Qed.

(** X9: one call of [Consume] logs at most one error: nothing, or the bind
    error (and then no goroutine exists), or one failure of [Accept] (and then
    the goroutine has left its loop). *)
Theorem Proxy_logs_at_most_one_error listenResult0 burned0 ls w :
  run ls (start listenResult0 burned0) = Some w ->
  log w = []
  \/ (exists err, listenResult0 = Some err /\ consumeAt w = ConReturned
                  /\ acceptAt w = AccNotStarted
                  /\ log w = [LogError "Proxy connection error: " err])
  \/ (exists err, listenResult0 = None
                  /\ log w = [LogError "Proxy listen failed: " err]
                  /\ (acceptAt w = AccWorkerDone \/ acceptAt w = AccFinished)).
Proof.
  intros Hrun.
  pose proof (run_consistent _ _ _ _ Hrun) as Hc.
  pose proof (run_keeps_listenResult _ _ _ Hrun) as Hlr. cbn in Hlr.
  assert (Hinv : consistent w
            /\ (log w = []
                \/ (exists err, listenResult w = Some err /\ consumeAt w = ConReturned
                                /\ log w = [LogError "Proxy connection error: " err])
                \/ (exists err, listenResult w = None
                                /\ log w = [LogError "Proxy listen failed: " err]
                                /\ (acceptAt w = AccWorkerDone \/ acceptAt w = AccFinished)))).
  { apply (run_invariant
             (fun w1 => consistent w1
                /\ (log w1 = []
                    \/ (exists err, listenResult w1 = Some err /\ consumeAt w1 = ConReturned
                                    /\ log w1 = [LogError "Proxy connection error: " err])
                    \/ (exists err, listenResult w1 = None
                                    /\ log w1 = [LogError "Proxy listen failed: " err]
                                    /\ (acceptAt w1 = AccWorkerDone
                                        \/ acceptAt w1 = AccFinished)))))
      with (ls := ls) (w := start listenResult0 burned0); [| |done].
    - intros l w0 w1 [Hc0 Hlog0] Hstep. split; [by eapply step_consistent|].
      by eapply step_log.
    - split; [unfold consistent; cbn; done|]. by left. }
  destruct Hinv as [[_ Hpcs] [Hnil|[(err & Hsome & Hret & Hlog)|(err & Hnone & Hlog & Hout)]]].
  - by left.
  - right. left. exists err. rewrite Hret in Hpcs.
    destruct Hpcs as [(_ & _ & ?)|(_ & ? & _)]; [congruence|].
    repeat split; try done. congruence.
  - right. right. exists err. repeat split; try done. congruence.
Qed.

(** X10: the accept goroutine exists only after a successful bind: whenever
    it has been started the listener is bound (open or already closed), so
    line 152 never finds [cons.listen] nil, and a failed bind starts no
    goroutine. *)
Theorem accept_runs_on_bound_listener listenResult0 burned0 ls w :
  run ls (start listenResult0 burned0) = Some w ->
  acceptAt w <> AccNotStarted ->
  listenResult0 = None
  /\ (listen w = ListenOpen \/ listen w = ListenClosed)
  /\ (listen w = ListenClosed -> consumeAt w = ConReturned /\ active w = false).
Proof.
  intros Hrun Hstarted.
  pose proof (run_consistent _ _ _ _ Hrun) as [_ Hpcs].
  pose proof (run_keeps_listenResult _ _ _ Hrun) as Hlr. cbn in Hlr.
  pose proof (run_inactive_after_shutdown _ _ _ _ Hrun) as Hinactive.
  destruct (consumeAt w) eqn:Hat.
  - destruct Hpcs as [_ ?]. done.
  - destruct Hpcs as (_ & ? & _). done.
  - destruct Hpcs as (Hopen & _ & Hnone). rewrite Hopen.
    repeat split; [congruence|tauto|discriminate|discriminate].
  - destruct Hpcs as (Hopen & _ & Hnone). rewrite Hopen.
    repeat split; [congruence|tauto|discriminate|discriminate].
  - destruct Hpcs as [(Hclosed & _ & Hnone)|(_ & ? & _)]; [|done].
    repeat split; [congruence|tauto|apply Hinactive; tauto].
Qed.

Lemma step_only_adds l w w' :
  consistent w -> step l w = Some w' ->
  (exists more, log w' = (log w ++ more)%list)
  /\ (exists more, handlers w' = (handlers w ++ more)%list)
  /\ (listen w = ListenClosed -> listen w' = ListenClosed)
  /\ (active w = false -> active w' = false)
  /\ (stopRequested w = true -> stopRequested w' = true).
Proof.
  intros [_ Hpcs] Hstep.
  step_cases Hstep; cbn in *;
    (split; [first [by (exists []; rewrite app_nil_r) | by eexists]|]);
    (split; [first [by (exists []; rewrite app_nil_r) | by eexists]|]);
    intuition congruence.
Qed.

(** X11: [accept] and [Consume] only add: a logged error and a started
    handler stay, in their place; a closed listener is not opened again, an
    inactive consumer does not become active, and a shutdown request is not
    withdrawn. *)
Theorem run_only_adds listenResult0 burned0 ls0 w ls w' :
  run ls0 (start listenResult0 burned0) = Some w ->
  run ls w = Some w' ->
  (exists more, log w' = (log w ++ more)%list)
  /\ (exists more, handlers w' = (handlers w ++ more)%list)
  /\ (listen w = ListenClosed -> listen w' = ListenClosed)
  /\ (active w = false -> active w' = false)
  /\ (stopRequested w = true -> stopRequested w' = true).
Proof.
  intros Hrun0 Hrun.
  pose proof (run_consistent _ _ _ _ Hrun0) as Hc.
  assert (Hinv : consistent w'
            /\ (exists more, log w' = (log w ++ more)%list)
            /\ (exists more, handlers w' = (handlers w ++ more)%list)
            /\ (listen w = ListenClosed -> listen w' = ListenClosed)
            /\ (active w = false -> active w' = false)
            /\ (stopRequested w = true -> stopRequested w' = true)); [|tauto].
  apply (run_invariant
           (fun w1 => consistent w1
              /\ (exists more, log w1 = (log w ++ more)%list)
              /\ (exists more, handlers w1 = (handlers w ++ more)%list)
              /\ (listen w = ListenClosed -> listen w1 = ListenClosed)
              /\ (active w = false -> active w1 = false)
              /\ (stopRequested w = true -> stopRequested w1 = true)))
    with (ls := ls) (w := w); [| |done].
  - intros l w0 w1 (Hc0 & [m1 Hl] & [m2 Hh] & Hli & Ha & Hs) Hstep.
    destruct (step_only_adds _ _ _ Hc0 Hstep) as ([m1' Hl'] & [m2' Hh'] & Hli' & Ha' & Hs').
    split; [by eapply step_consistent|].
    split; [exists (m1 ++ m1')%list; by rewrite Hl', Hl, app_assoc|].
    split; [exists (m2 ++ m2')%list; by rewrite Hh', Hh, app_assoc|].
    tauto.
  - split; [done|]. split; [exists []; by rewrite app_nil_r|].
    split; [exists []; by rewrite app_nil_r|]. tauto.
Qed.

End LifecycleMore.

(** ** format.Base64Decode: more about Configure and Format *)

Section Base64DecodeMore.

Context `{Base64Imports}.

Import Base64Decode.

Lemma Base64Decode_dictionary format conf :
  chosen (Configure format conf)
  = if String.eqb (fst (GetString conf "Dictionary" "")) ""
    then Some StdEncoding else NewEncoding (fst (GetString conf "Dictionary" "")).
Proof.
  rewrite Base64Decode_Configure_eq, Base64Decode_configure_run. cbn [fst].
  destruct (String.eqb _ ""); [done|]. by destruct (NewEncoding _).
Qed.

(** X12: without a dictionary, or with an empty one, [Configure] returns and
    the formatter decodes with the standard encoding.  With any other
    dictionary it returns exactly when [NewEncoding] takes the dictionary,
    which then has 64 characters, and the formatter decodes with that
    encoding; otherwise it panics.  So the error of line 57 is never
    returned: whenever it has been pushed, line 59 panics. *)
Theorem Configure_dictionary_choice format conf :
  (conf !! "Dictionary" = None \/ conf !! "Dictionary" = Some (VString "") ->
   chosen (Configure format conf) = Some StdEncoding
   /\ ~ In (Errorf msgDictionary) (ConfigureErrors format conf))
  /\ (forall dict,
        conf !! "Dictionary" = Some (VString dict) -> dict <> "" ->
        chosen (Configure format conf) = NewEncoding dict
        /\ (Configure format conf = None <-> NewEncoding dict = None)
        /\ (String.length dict <> 64%nat -> Configure format conf = None))
  /\ (forall format' errors,
        Configure format conf = Some (format', Some errors) ->
        errors = ConfigureErrors format conf /\ ~ In (Errorf msgDictionary) errors).
Proof.
  split; [|split].
  - intros Hnone.
    assert (Hd : fst (GetString conf "Dictionary" "") = "").
    { unfold GetString. by destruct Hnone as [-> | ->]. }
    split.
    + by rewrite Base64Decode_dictionary, Hd.
    + rewrite Errorf_in_Base64Decode_errors. cbv zeta. rewrite Hd. tauto.
  - intros dict Hdict Hne.
    assert (Hd : fst (GetString conf "Dictionary" "") = dict).
    { unfold GetString. by rewrite Hdict. }
    assert (Hpanics : Configure format conf = None <-> NewEncoding dict = None).
    { rewrite Base64Decode_Configure_panics. cbv zeta. rewrite Hd. tauto. }
    split; [|split; [exact Hpanics|]].
    + rewrite Base64Decode_dictionary, Hd.
      apply String.eqb_neq in Hne. by rewrite Hne.
    + intros Hlen. apply Hpanics.
      destruct (NewEncoding dict) as [encoding|] eqn:Hnew; [|done].
      by apply NewEncoding_alphabet in Hnew.
  - intros format' errors Hreturn.
    destruct (Base64Decode_Configure_returns format conf format' (Some errors) Hreturn)
      as (Herr & _ & Hdict).
    assert (Herrors : errors = ConfigureErrors format conf).
    { destruct (ConfigureErrors format conf); [discriminate Herr|].
      cbn in Herr. congruence. }
    split; [exact Herrors|]. rewrite Herrors, Errorf_in_Base64Decode_errors. cbv zeta.
    intros [Hne Hlen].
    apply String.eqb_neq in Hne. rewrite Hne in Hdict.
    by apply NewEncoding_alphabet in Hdict.
Qed.

(** X13: only the option named "Dictionary" selects the encoding: setting
    any other option, the "Base64Dictionary" of the doc comment included,
    changes neither the encoding nor the dictionary error. *)
Theorem Configure_reads_only_Dictionary format conf key v :
  key <> "Dictionary" ->
  chosen (Configure format (<[key := v]> conf)) = chosen (Configure format conf)
  /\ (In (Errorf msgDictionary) (ConfigureErrors format (<[key := v]> conf))
      <-> In (Errorf msgDictionary) (ConfigureErrors format conf)).
Proof.
  intros Hkey. split.
  - by rewrite !Base64Decode_dictionary, GetString_insert_ne.
  - rewrite !Errorf_in_Base64Decode_errors. cbv zeta.
    by rewrite GetString_insert_ne.
Qed.

(** X14: whenever [Format] returns, and [Decode] has left the length of its
    buffer alone, the payload has as many bytes as [Decode] reported and at
    most [DecodedLen] of the length of the message; the log has grown by at
    most one entry. *)
Theorem Format_payload_within_DecodedLen
    format msg log decoded' size err payload streamID log' :
  let n := DecodedLen (dictionary format) (Z.of_nat (List.length (Data msg))) in
  Decode (dictionary format) (repeat x00 (Z.to_nat n)) (Data msg) = (decoded', size, err) ->
  List.length decoded' = Z.to_nat n ->
  Format format msg log = Some (payload, streamID, log') ->
  Z.of_nat (List.length payload) = size
  /\ (0 <= size <= n)%Z
  /\ (n = 0%Z -> payload = [])
  /\ exists more, log' = (log ++ more)%list /\ (List.length more <= 1)%nat.
Proof.
  intros n Hdecode Hlen Hformat. unfold Format in Hformat. fold n in Hformat.
  unfold make in Hformat. destruct (Z.ltb_spec n 0) as [Hneg|Hpos]; [done|].
  rewrite Hdecode in Hformat. unfold sliceTo in Hformat.
  destruct (Z.leb_spec 0 size) as [Hlo|]; [|done].
  destruct (Z.leb_spec size (Z.of_nat (List.length decoded'))) as [Hhi|]; [|done].
  cbn [andb] in Hformat. cbv beta iota zeta in Hformat. injection Hformat as <- _ <-.
  assert (Hpl : Z.of_nat (List.length (firstn (Z.to_nat size) decoded')) = size).
  { rewrite length_take. lia. }
  repeat split; try lia.
  - intros Hzero. apply length_zero_iff_nil. lia.
  - destruct err as [e|].
    + exists [LogError "" e]. split; [done|cbn; lia].
    + exists []. rewrite app_nil_r. split; [done|cbn; lia].
Qed.

End Base64DecodeMore.

(** ** format.SplitToJSON *)

Section SplitToJSONFacts.

Context `{SplitToJSONImports}.

Import SplitToJSON.

Lemma string_app_assoc (a b c : string) : ((a ++ b) ++ c = a ++ (b ++ c))%string.
Proof.
  induction a as [|x a IH]; [reflexivity|].
  change (String x ((a ++ b) ++ c) = String x (a ++ (b ++ c)))%string. by rewrite IH.
Qed.

Lemma concat_snoc sep (l : list string) x :
  l <> [] -> String.concat sep (l ++ [x]) = (String.concat sep l ++ sep ++ x)%string.
Proof.
  induction l as [|y l IH]; [done|]. intros _.
  destruct l as [|z l].
  - reflexivity.
  - change (y ++ sep ++ String.concat sep ((z :: l) ++ [x])
            = (y ++ sep ++ String.concat sep (z :: l)) ++ sep ++ x)%string.
    rewrite IH by done. by rewrite !string_app_assoc.
Qed.

Lemma index_of_nat {A : Type} (s : list A) (i : nat) : index s (Z.of_nat i) = s !! i.
Proof.
  unfold index. destruct (Z.ltb_spec (Z.of_nat i) 0); [lia|]. by rewrite Nat2Z.id.
Qed.

(** The rounds from [j] on, when the first [j] pairs are printed. *)
Lemma rounds_from format components m j :
  let pairs := zip (keys format) components in
  (1 <= j)%nat -> (1 <= m)%nat -> (j + m)%nat = List.length pairs ->
  fold_left (fun json i => match json with
                           | Some js => round format components
                                          (Z.of_nat (List.length pairs)) js (Z.of_nat i)
                           | None => None
                           end)
            (seq j m)
            (Some ("{" ++ String.concat "," (map escaped (take j pairs)))%string)
  = Some ("{" ++ String.concat "," (map escaped pairs) ++ "}")%string.
Proof.
  intros pairs. revert j. induction m as [|m IH]; intros j Hj Hm Hlen; [lia|].
  cbn [seq fold_left].
  destruct (pairs !! j) as [[k c]|] eqn:Hp;
    [|apply lookup_ge_None in Hp; lia].
  pose proof Hp as Hkc. apply lookup_zip_with_Some in Hkc as (k' & c' & [= <- <-] & Hk & Hc).
  unfold round at 2. rewrite !index_of_nat, Hk, Hc. cbv zeta.
  destruct (Z.eqb_spec (Z.of_nat j) 0) as [|_]; [lia|].
  assert (Htake : take (S j) pairs = (take j pairs ++ [(k, c)])%list) by by apply take_S_r.
  assert (Hne : map escaped (take j pairs) <> []).
  { destruct pairs as [|p ps]; [cbn in Hlen; lia|].
    destruct j; [lia|]. cbn. discriminate. }
  destruct (Z.eqb_spec (Z.of_nat j) (Z.of_nat (List.length pairs) - 1)) as [Hlast|Hmore].
  - assert (m = 0)%nat as -> by lia. cbn [seq fold_left].
    assert (Hall : pairs = (take j pairs ++ [(k, c)])%list).
    { rewrite <- Htake. symmetry. apply take_ge. lia. }
    rewrite Hall at 2. rewrite map_app. cbn [map].
    rewrite (concat_snoc _ _ _ Hne). fold (escaped (k, c)).
    by rewrite !string_app_assoc.
  - assert (Hacc : ("{" ++ String.concat "," (map escaped (take j pairs)) ++ ","
                    ++ pair (EscapeJSON k) (EscapeJSON (string_of_list_byte c)))%string
                   = ("{" ++ String.concat "," (map escaped (take (S j) pairs)))%string).
    { rewrite Htake, map_app. cbn [map]. by rewrite (concat_snoc _ _ _ Hne). }
    rewrite string_app_assoc, Hacc. apply IH; lia.
Qed.

(** The text [Format] builds is the object rendered from the keys zipped
    with the components. *)
Lemma jsonOf_render format components :
  MinI (Z.of_nat (List.length (keys format))) (Z.of_nat (List.length components))
  = Z.min (Z.of_nat (List.length (keys format))) (Z.of_nat (List.length components)) ->
  jsonOf format components = Some (render (zip (keys format) components)).
Proof.
  intros Hmin. unfold jsonOf. rewrite Hmin.
  set (pairs := zip (keys format) components).
  assert (Hlen : Z.min (Z.of_nat (List.length (keys format)))
                       (Z.of_nat (List.length components))
                 = Z.of_nat (List.length pairs)).
  { unfold pairs. rewrite length_zip_with. lia. }
  rewrite Hlen.
  destruct pairs as [|[k c] [|p2 ps]] eqn:Hpairs.
  - reflexivity.
  - cbn [List.length Z.of_nat Z.eqb Pos.of_succ_nat Pos.eqb].
    assert (Hp : pairs !! 0%nat = Some (k, c)) by by rewrite Hpairs.
    apply lookup_zip_with_Some in Hp as (k' & c' & [= <- <-] & Hk & Hc).
    change 0%Z with (Z.of_nat 0). by rewrite !index_of_nat, Hk, Hc.
  - destruct (Z.eqb_spec (Z.of_nat (List.length ((k, c) :: p2 :: ps))) 0) as [E|_];
      [cbn [List.length] in E; lia|].
    destruct (Z.eqb_spec (Z.of_nat (List.length ((k, c) :: p2 :: ps))) 1) as [E|_];
      [cbn [List.length] in E; lia|].
    unfold rounds. rewrite Nat2Z.id. rewrite <- Hpairs.
    assert (Hn : List.length pairs = S (S (List.length ps))) by by rewrite Hpairs.
    assert (Hp : pairs !! 0%nat = Some (k, c)) by by rewrite Hpairs.
    pose proof Hp as Hkc.
    apply lookup_zip_with_Some in Hkc as (k' & c' & [= <- <-] & Hk & Hc).
    assert (Hseq : seq 0 (List.length pairs) = 0%nat :: seq 1 (S (List.length ps))).
    { by rewrite Hn. }
    rewrite Hseq. cbn [fold_left].
    unfold round at 2. rewrite !index_of_nat, Hk, Hc. cbv zeta.
    change (Z.of_nat 0 =? 0)%Z with true. cbv iota.
    assert (Hfirst : ("{" ++ pair (EscapeJSON k) (EscapeJSON (string_of_list_byte c)))%string
                     = ("{" ++ String.concat "," (map escaped (take 1 pairs)))%string).
    { by rewrite Hpairs. }
    rewrite Hfirst.
    pose proof (rounds_from format components (S (List.length ps)) 1) as Hrounds.
    cbv zeta in Hrounds. fold pairs in Hrounds.
    rewrite Hrounds by lia. unfold render. rewrite Hpairs. reflexivity.
Qed.

Lemma Format_eq format msg :
  MinI (Z.of_nat (List.length (keys format)))
       (Z.of_nat (List.length (Split (fst (base format msg)) (token format))))
  = Z.min (Z.of_nat (List.length (keys format)))
          (Z.of_nat (List.length (Split (fst (base format msg)) (token format)))) ->
  Format format msg
  = Some (list_byte_of_string
            (render (zip (keys format) (Split (fst (base format msg)) (token format)))),
          snd (base format msg)).
Proof.
  intros Hmin. unfold Format. destruct (base format msg) as [data streamID].
  cbn [fst snd] in *. by rewrite (jsonOf_render _ _ Hmin).
Qed.

(** X15: when [shared.MinI] is the smaller of its arguments, [Format] returns
    on every message, with the stream of the base formatter, and prints the
    keys paired with the components of the base formatter's output: nothing
    for no pair; for one pair the key without quotes and both without
    escaping; for two or more the escaped pairs in quotes, separated by
    commas, between braces. *)
Theorem Format_renders_pairs format msg :
  let components := Split (fst (base format msg)) (token format) in
  MinI (Z.of_nat (List.length (keys format))) (Z.of_nat (List.length components))
  = Z.min (Z.of_nat (List.length (keys format))) (Z.of_nat (List.length components)) ->
  Format format msg
  = Some (list_byte_of_string (render (zip (keys format) components)),
          snd (base format msg)).
Proof. intros components. apply Format_eq. Qed.

Lemma zip_surplus_l {A B : Type} (l extra : list A) (k : list B) :
  (List.length k <= List.length l)%nat -> zip (l ++ extra) k = zip l k.
Proof.
  revert k. induction l as [|x l IH]; intros [|y k] Hlen; cbn in *; try done; try lia.
  - by destruct extra.
  - f_equal. apply IH. lia.
Qed.

Lemma zip_take_r {A B : Type} (l : list A) (k : list B) :
  zip l (take (List.length l) k) = zip l k.
Proof.
  revert k. induction l as [|x l IH]; intros [|y k]; cbn; try done.
  f_equal. apply IH.
Qed.

(** X16: what lies beyond the shorter of the two lists is not printed: keys
    without a component leave the output as it is, and two messages whose
    components agree as far as there are keys are formatted alike. *)
Theorem Format_ignores_surplus format msg1 msg2 extra :
  (forall a b, MinI a b = Z.min a b) ->
  let components1 := Split (fst (base format msg1)) (token format) in
  let components2 := Split (fst (base format msg2)) (token format) in
  ((List.length components1 <= List.length (keys format))%nat ->
   Format {| base := base format; token := token format;
             keys := keys format ++ extra |} msg1
   = Format format msg1)
  /\ (take (List.length (keys format)) components1
      = take (List.length (keys format)) components2 ->
      snd (base format msg1) = snd (base format msg2) ->
      Format format msg1 = Format format msg2).
Proof.
  intros Hmin components1 components2. split.
  - intros Hlen. rewrite !Format_eq by apply Hmin. cbn [base token keys].
    fold components1. by rewrite zip_surplus_l.
  - intros Htake Hstream. rewrite !Format_eq by apply Hmin.
    fold components1 components2.
    rewrite <- (zip_take_r (keys format) components1),
            <- (zip_take_r (keys format) components2), Htake, Hstream. done.
Qed.

(** X17: a formatter configured without "SplitToJSONKeys" prints nothing:
    [Configure] takes the base formatter and the token from the
    configuration, and [Format] then returns the empty payload for every
    message, with the stream of the base formatter. *)
Theorem Configure_without_keys_formats_nothing format conf plugin :
  (forall a b, MinI a b = Z.min a b) ->
  NewPluginWithType (GetStringOr conf "SplitToJSONDataFormatter" "format.Forward") conf
  = inl (PluginFormatter plugin) ->
  GetStringArray conf "SplitToJSONKeys" [] = [] ->
  exists format',
    Configure format conf = Some (format', None)
    /\ base format' = plugin
    /\ token format' = list_byte_of_string (GetStringOr conf "SplitToJSONToken" "|")
    /\ forall msg, Format format' msg = Some ([], snd (plugin msg)).
Proof.
  intros Hmin Hplugin Hkeys. unfold Configure. rewrite Hplugin, Hkeys.
  eexists. split; [reflexivity|]. cbn [base token keys].
  repeat split. intros msg. by rewrite Format_eq by apply Hmin.
Qed.

End SplitToJSONFacts.

(* ===================================================================== *)
(** * Concrete runs *)
(* ===================================================================== *)

(** The theorems above, applied to the sample configurations and schedules
    of [Reference]. *)

(** Binary_BE with Size 2: everything, big endian and the 16 bit length
    field; binary with Size 3: the size error. *)
Lemma Configure_binary_size_witness :
  Proxy.flags (fst (Proxy.Configure Reference.newProxy Reference.confBinaryBE))
  = Z.lor (Z.lor 16 8) 3
  /\ In (Errorf Proxy.msgSize)
        (Proxy.ConfigureErrors Reference.newProxy Reference.confUDPBadSize).
Proof.
  split.
  - apply (Configure_binary_size Reference.newProxy Reference.confBinaryBE 2).
    + vm_compute. tauto.
    + left. reflexivity.
    + reflexivity.
  - apply (Configure_binary_size Reference.newProxy Reference.confUDPBadSize 3).
    + vm_compute. tauto.
    + left. reflexivity.
    + vm_compute. intuition discriminate.
Defined.

(** FIXED with Size 3 and Offset 7: the offset field is 3. *)
Lemma Configure_fixed_offset_is_size_witness :
  Proxy.offset (fst (Proxy.Configure Reference.newProxy Reference.confFixed)) = 3%Z.
Proof.
  apply (Configure_fixed_offset_is_size Reference.newProxy Reference.confFixed).
  reflexivity.
Defined.

(** Binary_BE configures what binary_be configures; Protobuf is unknown. *)
Lemma Configure_partitioner_case_insensitive_witness :
  Proxy.flags (fst (Proxy.Configure Reference.newProxy Reference.confBinaryBE))
  = Proxy.flags
      (fst (Proxy.Configure Reference.newProxy
              (<["Partitioner" := VString "binary_be"]> Reference.confBinaryBE)))
  /\ In (Errorf "Unknown partitioner: protobuf")
        (Proxy.ConfigureErrors Reference.newProxy Reference.confUnknown).
Proof.
  split.
  - apply (Configure_partitioner_case_insensitive
             Reference.newProxy Reference.confBinaryBE "Binary_BE").
    + repeat constructor.
    + reflexivity.
    + vm_compute. tauto.
  - apply (Configure_partitioner_case_insensitive
             Reference.newProxy Reference.confUnknown "Protobuf").
    + repeat constructor.
    + reflexivity.
    + vm_compute. intuition discriminate.
Defined.

(** A payload that is corrupt from its fifth character: the three bytes of
    the first quantum are returned and the error is logged. *)
Lemma Format_returns_decoded_prefix_witness :
  Base64Decode.Configure Reference.newBase64Decode ∅
  = Some (Reference.stdBase64Decode, None)
  /\ exists payload log',
      Base64Decode.Format Reference.stdBase64Decode
        {| Data := Reference.bytes "aGVs!G8="; StreamID := 7 |} []
      = Some (payload, 7%Z, log')
      /\ payload = Reference.bytes "hel"
      /\ log' = [LogError "" (CorruptInputError 4)].
Proof.
  split; [reflexivity|].
  destruct (Format_returns_decoded_prefix
              Reference.stdBase64Decode
              {| Data := Reference.bytes "aGVs!G8="; StreamID := 7 |} []
              (Reference.bytes "hel" ++ repeat x00 3)%list 3
              (Some (CorruptInputError 4)))
    as (payload & log' & Hformat & Hpayload & _ & _ & Hlog & _).
  - vm_compute. discriminate.
  - vm_compute. reflexivity.
  - vm_compute. split; discriminate.
  - exists payload, log'. split; [exact Hformat|]. split; [exact Hpayload|].
    apply Hlog. reflexivity.
Defined.

(** In the second round of the loop the call of [Accept] again follows a
    [WaitOnFuse] that found the fuse clear. *)
Lemma accept_waits_on_fuse_first_witness :
  exists w ls1 ls2 w1,
    Lifecycle.run Reference.twoRounds (Lifecycle.start None false) = Some w
    /\ Lifecycle.handlers w = [1%nat]
    /\ Reference.twoRounds = (ls1 ++ Lifecycle.RunAccept :: ls2)%list
    /\ Lifecycle.run ls1 (Lifecycle.start None false) = Some w1
    /\ Lifecycle.acceptAt w1 = Lifecycle.AccWaitOnFuse
    /\ Lifecycle.burned w1 = false.
Proof.
  destruct (Lifecycle.run Reference.twoRounds (Lifecycle.start None false))
    as [w|] eqn:Hrun; [|discriminate Hrun].
  destruct (accept_waits_on_fuse_first None false Reference.twoRounds w Hrun)
    as [Hcall _].
  destruct Hcall as (ls1 & ls2 & w1 & Hsplit & Hrun1 & Hwait & Hclear & _).
  - vm_compute in Hrun. injection Hrun as <-. reflexivity.
  - exists w, ls1, ls2, w1. repeat split; try assumption.
    vm_compute in Hrun. injection Hrun as <-. reflexivity.
Defined.

(** A shutdown while [Accept] is pending: [Consume] returns with the
    listener closed. *)
Lemma Consume_closes_listener_before_return_witness :
  exists w,
    Lifecycle.run Reference.shutdown (Lifecycle.start None false) = Some w
    /\ Lifecycle.consumeAt w = Lifecycle.ConReturned
    /\ Lifecycle.listen w = ListenClosed.
Proof.
  destruct (Lifecycle.run Reference.shutdown (Lifecycle.start None false))
    as [w|] eqn:Hrun; [|discriminate Hrun].
  exists w.
  assert (Hret : Lifecycle.consumeAt w = Lifecycle.ConReturned).
  { vm_compute in Hrun. injection Hrun as <-. reflexivity. }
  split; [reflexivity|]. split; [exact Hret|].
  by apply (Consume_closes_listener_before_return false Reference.shutdown w Hrun).
Defined.

(** An [Accept] that fails while the consumer is active is logged; the one
    that fails because shutdown closed the listener is not. *)
Lemma accept_error_logged_iff_active_witness :
  (exists w w',
     Lifecycle.run Reference.acceptFailure (Lifecycle.start None false) = Some w
     /\ Lifecycle.active w = true
     /\ Lifecycle.accept w = Some w'
     /\ Lifecycle.log w'
        = [LogError "Proxy listen failed: " (NetError "too many open files")]
     /\ Lifecycle.acceptAt w' = Lifecycle.AccWorkerDone)
  /\ (exists w w',
        Lifecycle.run (Reference.shutdown ++ [Lifecycle.RunAccept])
          (Lifecycle.start None false) = Some w
        /\ Lifecycle.active w = false
        /\ Lifecycle.accept w = Some w'
        /\ Lifecycle.log w' = []
        /\ Lifecycle.acceptAt w' = Lifecycle.AccWorkerDone).
Proof.
  split.
  - destruct (Lifecycle.run Reference.acceptFailure (Lifecycle.start None false))
      as [w|] eqn:Hrun; [|discriminate Hrun].
    destruct (accept_error_logged_iff_active None false Reference.acceptFailure w
                (NetError "too many open files") Hrun)
      as (w' & Hstep & Hlog & Hout & _).
    + vm_compute in Hrun. injection Hrun as <-. reflexivity.
    + exists w, w'. vm_compute in Hrun. injection Hrun as <-.
      repeat split; try assumption.
  - destruct (Lifecycle.run (Reference.shutdown ++ [Lifecycle.RunAccept])
                (Lifecycle.start None false))
      as [w|] eqn:Hrun; [|discriminate Hrun].
    destruct (accept_error_logged_iff_active None false
                (Reference.shutdown ++ [Lifecycle.RunAccept]) w
                Lifecycle.errClosed Hrun)
      as (w' & Hstep & Hlog & Hout & _).
    + vm_compute in Hrun. injection Hrun as <-. reflexivity.
    + exists w, w'. vm_compute in Hrun. injection Hrun as <-.
      repeat split; try assumption.
Defined.

(** The address is in use: nothing is started. *)
Lemma Consume_bind_failure_witness :
  exists w,
    Lifecycle.run [Lifecycle.Burn; Lifecycle.RunConsume; Lifecycle.Clear]
      (Lifecycle.start (Some (NetError "address already in use")) false) = Some w
    /\ Lifecycle.acceptAt w = Lifecycle.AccNotStarted
    /\ Lifecycle.listen w = ListenNil.
Proof.
  eexists. split; [vm_compute; reflexivity|].
  split; eapply (Consume_bind_failure (NetError "address already in use") false
                   [Lifecycle.Burn; Lifecycle.RunConsume; Lifecycle.Clear]);
    vm_compute; reflexivity.
Defined.

(** UDP and a bad size are reported in one error, and a clean configuration
    returns none; the error of a short dictionary is pushed and never
    returned, as [Configure] panics. *)
Lemma Configure_collects_violations_witness :
  snd (Proxy.Configure Reference.newProxy Reference.confUDPBadSize)
  = Some [Errorf "Proxy does not support UDP";
          Errorf "Size only supports the value 1,2,4 and 8"]
  /\ snd (Proxy.Configure Reference.newProxy Reference.confFixed) = None
  /\ In (Errorf "Base64 dictionary must contain 64 characters.")
        (Base64Decode.ConfigureErrors Reference.newBase64Decode
           Reference.confShortDictionary)
  /\ Base64Decode.Configure Reference.newBase64Decode Reference.confShortDictionary
     = None.
Proof.
  pose proof (Configure_collects_violations
                Reference.newProxy Reference.confUDPBadSize
                Reference.newBase64Decode Reference.confShortDictionary)
    as (Hproxy & _ & _ & _ & _ & _ & _ & _ & _ & Hpanic & _).
  pose proof (Configure_collects_violations
                Reference.newProxy Reference.confFixed
                Reference.newBase64Decode Reference.confShortDictionary)
    as (_ & _ & _ & _ & _ & Hclean & _).
  split; [exact Hproxy|]. split.
  - apply Hclean.
    + reflexivity.
    + vm_compute. tauto.
    + vm_compute. discriminate.
    + vm_compute. tauto.
    + vm_compute. intuition discriminate.
  - apply Hpanic.
    + vm_compute. discriminate.
    + vm_compute. discriminate.
Defined.

(** A udp:// address is rejected, the default address is not. *)
Lemma Configure_rejects_udp_witness :
  In (Errorf "Proxy does not support UDP")
     (Proxy.ConfigureErrors Reference.newProxy Reference.confUDPBadSize)
  /\ ~ In (Errorf "Proxy does not support UDP")
       (Proxy.ConfigureErrors Reference.newProxy Reference.confBinaryBE).
Proof.
  split.
  - apply (Configure_rejects_udp Reference.newProxy Reference.confUDPBadSize).
    reflexivity.
  - intros Hin.
    apply (Configure_rejects_udp Reference.newProxy Reference.confBinaryBE) in Hin.
    vm_compute in Hin. discriminate Hin.
Defined.

(** A connection that arrives while the fuse is burned is still accepted when
    the goroutine was already inside [Accept]. *)
Example connection_accepted_while_burned :
  exists w,
    Lifecycle.run
      [Lifecycle.RunConsume; Lifecycle.RunConsume;
       Lifecycle.RunAccept; Lifecycle.RunAccept; Lifecycle.RunAccept; Lifecycle.RunAccept;
       Lifecycle.Burn; Lifecycle.Connect 1%nat; Lifecycle.RunAccept; Lifecycle.RunAccept]
      (Lifecycle.start None false) = Some w
    /\ Lifecycle.burned w = true /\ Lifecycle.handlers w = [1%nat].
Proof. eexists. split; [vm_compute; reflexivity|]. cbn. by split. Qed.

(** ASCII with Offset 5: the offset field is 5, whatever Size holds. *)
Lemma Configure_keeps_offset_unless_fixed_witness :
  Proxy.offset (fst (Proxy.Configure Reference.newProxy Samples.confAsciiOffset)) = 5%Z.
Proof.
  destruct (Configure_keeps_offset_unless_fixed
              Reference.newProxy Samples.confAsciiOffset) as (_ & _ & Hint).
  - vm_compute. discriminate.
  - apply Hint. reflexivity.
Defined.

(** ASCII with Size 9: everything and the ASCII length field, no error. *)
Lemma Configure_text_kinds_witness :
  Proxy.flags (fst (Proxy.Configure Reference.newProxy Samples.confAsciiOffset))
  = Z.lor 16 1.
Proof.
  destruct (Configure_text_kinds Reference.newProxy Samples.confAsciiOffset)
    as (Hflags & _).
  - left. reflexivity.
  - exact Hflags.
Defined.

(** A consumer configured before is configured like a new one. *)
Lemma Configure_overwrites_fields_witness :
  Proxy.Configure Samples.usedProxy Reference.confBinaryBE
  = Proxy.Configure Reference.newProxy Reference.confBinaryBE.
Proof.
  apply (Configure_overwrites_fields Samples.usedProxy Reference.newProxy
           Reference.confBinaryBE); reflexivity.
Defined.

(** The option "Stream" does not change the flags. *)
Lemma Configure_ignores_other_options_witness :
  Proxy.flags
    (fst (Proxy.Configure Reference.newProxy
            (<["Stream" := VString "proxy"]> Reference.confBinaryBE)))
  = Proxy.flags (fst (Proxy.Configure Reference.newProxy Reference.confBinaryBE)).
Proof.
  destruct (Configure_ignores_other_options Reference.newProxy
              Reference.confBinaryBE "Stream" (VString "proxy"))
    as (_ & _ & Hflags & _).
  - cbn [In]. intros [H|[H|[H|[H|[H|[]]]]]]; discriminate H.
  - exact Hflags.
Defined.

(** After two rounds the one peer that connected has its handler. *)
Lemma accept_hands_over_in_order_witness :
  exists w,
    Lifecycle.run Reference.twoRounds (Lifecycle.start None false) = Some w
    /\ (Lifecycle.handlers w ++ inHand (Lifecycle.acceptAt w) ++ Lifecycle.backlog w)%list
       = [1%nat].
Proof.
  destruct (Lifecycle.run Reference.twoRounds (Lifecycle.start None false))
    as [w|] eqn:Hrun; [|discriminate Hrun].
  exists w. split; [reflexivity|].
  exact (accept_hands_over_in_order None false Reference.twoRounds w Hrun).
Defined.

(** After the shutdown the goroutine, which was inside [Accept], ends. *)
Lemma accept_ends_after_shutdown_witness :
  exists w w',
    Lifecycle.run Reference.shutdown (Lifecycle.start None false) = Some w
    /\ Lifecycle.run (repeat Lifecycle.RunAccept 3) w = Some w'
    /\ Lifecycle.acceptAt w' = Lifecycle.AccFinished
    /\ Lifecycle.workers w' = 0%Z.
Proof.
  destruct (Lifecycle.run Reference.shutdown (Lifecycle.start None false))
    as [w|] eqn:Hrun; [|discriminate Hrun].
  destruct (accept_ends_after_shutdown false Reference.shutdown w Hrun)
    as (w' & Hend & _ & Hfinished & Hworkers & _).
  - vm_compute in Hrun. injection Hrun as <-. reflexivity.
  - vm_compute in Hrun. injection Hrun as <-. reflexivity.
  - exists w, w'. split; [reflexivity|].
    split; [|split; assumption].
    vm_compute in Hrun. injection Hrun as <-. exact Hend.
Defined.

(** The goroutine waits on the burned fuse through a whole shutdown. *)
Lemma accept_stays_blocked_while_burned_witness :
  exists w w',
    Lifecycle.run Samples.untilWait (Lifecycle.start None false) = Some w
    /\ Lifecycle.run Samples.shutdownWhileWaiting w = Some w'
    /\ Lifecycle.consumeAt w' = Lifecycle.ConReturned
    /\ Lifecycle.acceptAt w' = Lifecycle.AccWaitOnFuse
    /\ Lifecycle.workers w' = 1%Z.
Proof.
  destruct (Lifecycle.run Samples.untilWait (Lifecycle.start None false))
    as [w|] eqn:Hrun; [|discriminate Hrun].
  destruct (Lifecycle.run Samples.shutdownWhileWaiting w) as [w'|] eqn:Hrun';
    [|vm_compute in Hrun; injection Hrun as <-; discriminate Hrun'].
  destruct (accept_stays_blocked_while_burned None false Samples.untilWait w
              Samples.shutdownWhileWaiting w' Hrun)
    as (Hwait & _ & Hworkers & _).
  - vm_compute in Hrun. injection Hrun as <-. reflexivity.
  - vm_compute in Hrun. injection Hrun as <-. reflexivity.
  - repeat constructor; discriminate.
  - exact Hrun'.
  - exists w, w'. split; [reflexivity|]. split; [exact Hrun'|].
    split; [|split; assumption].
    vm_compute in Hrun. injection Hrun as <-.
    vm_compute in Hrun'. injection Hrun' as <-. reflexivity.
Defined.

(** The failed [Accept] is the one entry of the log. *)
Lemma Proxy_logs_at_most_one_error_witness :
  exists w,
    Lifecycle.run (Reference.acceptFailure ++ [Lifecycle.RunAccept])
      (Lifecycle.start None false) = Some w
    /\ (Lifecycle.log w = []
        \/ (exists err, Lifecycle.log w = [LogError "Proxy listen failed: " err])).
Proof.
  destruct (Lifecycle.run (Reference.acceptFailure ++ [Lifecycle.RunAccept])
              (Lifecycle.start None false))
    as [w|] eqn:Hrun; [|discriminate Hrun].
  exists w. split; [reflexivity|].
  destruct (Proxy_logs_at_most_one_error None false _ w Hrun)
    as [Hnil|[(err & Hsome & _)|(err & _ & Hlog & _)]].
  - by left.
  - discriminate Hsome.
  - right. by exists err.
Defined.

(** In the second round of the loop the listener is open. *)
Lemma accept_runs_on_bound_listener_witness :
  exists w,
    Lifecycle.run Reference.twoRounds (Lifecycle.start None false) = Some w
    /\ (Lifecycle.listen w = ListenOpen \/ Lifecycle.listen w = ListenClosed).
Proof.
  destruct (Lifecycle.run Reference.twoRounds (Lifecycle.start None false))
    as [w|] eqn:Hrun; [|discriminate Hrun].
  exists w. split; [reflexivity|].
  destruct (accept_runs_on_bound_listener None false Reference.twoRounds w Hrun)
    as (_ & Hlisten & _).
  - vm_compute in Hrun. injection Hrun as <-. discriminate.
  - exact Hlisten.
Defined.

(** The handler started in two rounds is still there after the shutdown. *)
Lemma run_only_adds_witness :
  exists w w',
    Lifecycle.run Reference.twoRounds (Lifecycle.start None false) = Some w
    /\ Lifecycle.run [Lifecycle.Stop; Lifecycle.RunConsume; Lifecycle.RunConsume] w
       = Some w'
    /\ exists more, Lifecycle.handlers w' = (Lifecycle.handlers w ++ more)%list.
Proof.
  destruct (Lifecycle.run Reference.twoRounds (Lifecycle.start None false))
    as [w|] eqn:Hrun; [|discriminate Hrun].
  destruct (Lifecycle.run [Lifecycle.Stop; Lifecycle.RunConsume; Lifecycle.RunConsume] w)
    as [w'|] eqn:Hrun';
    [|vm_compute in Hrun; injection Hrun as <-; discriminate Hrun'].
  exists w, w'. split; [reflexivity|]. split; [exact Hrun'|].
  destruct (run_only_adds None false Reference.twoRounds w
              [Lifecycle.Stop; Lifecycle.RunConsume; Lifecycle.RunConsume] w'
              Hrun Hrun') as (_ & Hhandlers & _).
  exact Hhandlers.
Defined.

(** The alphabet of base64url is taken as it is; no dictionary is the
    standard encoding. *)
Lemma Configure_dictionary_choice_witness :
  Base64Decode.chosen
    (Base64Decode.Configure Reference.newBase64Decode
       (<["Dictionary" :=
            VString "ABCDEFGHIJKLMNOPQRSTUVWXYZabcdefghijklmnopqrstuvwxyz0123456789-_"]> ∅))
  = Some "ABCDEFGHIJKLMNOPQRSTUVWXYZabcdefghijklmnopqrstuvwxyz0123456789-_"
  /\ Base64Decode.chosen (Base64Decode.Configure Reference.newBase64Decode ∅)
     = Some Reference.stdAlphabet.
Proof.
  split.
  - destruct (Configure_dictionary_choice Reference.newBase64Decode
                (<["Dictionary" :=
                     VString "ABCDEFGHIJKLMNOPQRSTUVWXYZabcdefghijklmnopqrstuvwxyz0123456789-_"]> ∅))
      as (_ & Hcustom & _).
    destruct (Hcustom "ABCDEFGHIJKLMNOPQRSTUVWXYZabcdefghijklmnopqrstuvwxyz0123456789-_")
      as [Hchosen _]; [reflexivity|discriminate|exact Hchosen].
  - destruct (Configure_dictionary_choice Reference.newBase64Decode ∅)
      as (Hstd & _).
    destruct Hstd as [Hchosen _]; [left; reflexivity|exact Hchosen].
Defined.

(** The option of the doc comment, "Base64Dictionary", selects nothing. *)
Lemma Configure_reads_only_Dictionary_witness :
  Base64Decode.chosen
    (Base64Decode.Configure Reference.newBase64Decode
       (<["Base64Dictionary" := VString "abc"]> ∅))
  = Base64Decode.chosen (Base64Decode.Configure Reference.newBase64Decode ∅).
Proof.
  destruct (Configure_reads_only_Dictionary Reference.newBase64Decode ∅
              "Base64Dictionary" (VString "abc")) as [Hdictionary _].
  - discriminate.
  - exact Hdictionary.
Defined.

(** Eight characters decode to five bytes, within the six of the buffer. *)
Lemma Format_payload_within_DecodedLen_witness :
  exists payload log',
    Base64Decode.Format Reference.stdBase64Decode
      {| Data := Reference.bytes "aGVsbG8="; StreamID := 7 |} []
    = Some (payload, 7%Z, log')
    /\ Z.of_nat (List.length payload) = 5%Z.
Proof.
  exists (Reference.bytes "hello"), []. split; [reflexivity|].
  destruct (Format_payload_within_DecodedLen
              Reference.stdBase64Decode
              {| Data := Reference.bytes "aGVsbG8="; StreamID := 7 |} []
              (Reference.bytes "hello" ++ [x00])%list 5 None
              (Reference.bytes "hello") 7 []) as [Hlength _];
    [reflexivity | reflexivity | reflexivity | exact Hlength].
Defined.

(** The formatter of [splittojson.go] runs on the reference imports. *)
#[local] Existing Instance ReferenceSplit.splitToJSONImports.

(** A line of four fields under three keys. *)
Lemma Format_renders_pairs_witness :
  SplitToJSON.Format ReferenceSplit.logLine
    {| Data := Reference.bytes "2015|web1|oops|extra"; StreamID := 3 |}
  = Some (list_byte_of_string
            (SplitToJSON.render
               [("timestamp", Reference.bytes "2015"); ("server", Reference.bytes "web1");
                ("error", Reference.bytes "oops")]),
          3%Z).
Proof.
  pose proof (Format_renders_pairs ReferenceSplit.logLine
                {| Data := Reference.bytes "2015|web1|oops|extra"; StreamID := 3 |})
    as Hformat.
  cbv zeta in Hformat. exact (Hformat eq_refl).
Defined.

(** The fourth field of the line is not printed. *)
Lemma Format_ignores_surplus_witness :
  SplitToJSON.Format ReferenceSplit.logLine
    {| Data := Reference.bytes "2015|web1|oops|extra"; StreamID := 3 |}
  = SplitToJSON.Format ReferenceSplit.logLine
      {| Data := Reference.bytes "2015|web1|oops"; StreamID := 3 |}.
Proof.
  destruct (Format_ignores_surplus ReferenceSplit.logLine
              {| Data := Reference.bytes "2015|web1|oops|extra"; StreamID := 3 |}
              {| Data := Reference.bytes "2015|web1|oops"; StreamID := 3 |} [])
    as [_ Hsame].
  - intros a b. reflexivity.
  - apply Hsame; reflexivity.
Defined.

(** The empty configuration: the forwarding formatter, no keys, no output. *)
Lemma Configure_without_keys_formats_nothing_witness :
  exists format',
    SplitToJSON.Configure ReferenceSplit.logLine ∅ = Some (format', None)
    /\ SplitToJSON.Format format'
         {| Data := Reference.bytes "2015|web1|oops"; StreamID := 3 |}
       = Some ([], 3%Z).
Proof.
  destruct (Configure_without_keys_formats_nothing ReferenceSplit.logLine ∅
              ReferenceSplit.forward)
    as (format' & Hconfigure & _ & _ & Hformat).
  - intros a b. reflexivity.
  - reflexivity.
  - reflexivity.
  - exists format'. split; [exact Hconfigure|]. apply Hformat.
Defined.
